(** * The legacy (V2) per-chunk codec pipeline of zarr: [zarr/codecs/_v2.py]

    The two stages of the pipeline, [V2Compressor] and [V2Filters], are
    embedded as functions over a small model of the numpy arrays they
    manipulate.  External collaborators (the numcodecs registry and the
    transforms it resolves) are parameters; every call made to them is
    recorded in a log so that the order of invocations can be stated. *)

From Stdlib Require Import String List ZArith Lia Bool Arith.
From Stdlib.Strings Require Import Byte.
Import ListNotations.

(** ** Outcomes of fallible operations *)

(** The Python exceptions the pipeline can meet.  [Raised] stands for any
    other exception coming out of an external transform. *)
Inductive exn : Type :=
| ValueError
| TypeError
| AttributeError
| NotImplementedError
| Raised (name : string).

Inductive result (A : Type) : Type :=
| Ok (a : A)
| Err (e : exn).
Arguments Ok {A} a.
Arguments Err {A} e.

Definition is_ok {A} (r : result A) : bool :=
  match r with Ok _ => true | Err _ => false end.

(** ** A model of numpy arrays *)

Module np.

(** Fixed-width element types, with the string numpy reports for them. *)
Inductive dtype : Type :=
| bool_ | int8 | uint8 | int16 | uint16 | int32 | uint32 | int64 | uint64
| float16 | float32 | float64 | complex64 | complex128.

Definition itemsize (d : dtype) : nat :=
  match d with
  | bool_ | int8 | uint8 => 1
  | int16 | uint16 | float16 => 2
  | int32 | uint32 | float32 => 4
  | int64 | uint64 | float64 | complex64 => 8
  | complex128 => 16
  end.

(** [str(dtype)] *)
Definition str (d : dtype) : string :=
  match d with
  | bool_ => "bool" | int8 => "int8" | uint8 => "uint8"
  | int16 => "int16" | uint16 => "uint16"
  | int32 => "int32" | uint32 => "uint32"
  | int64 => "int64" | uint64 => "uint64"
  | float16 => "float16" | float32 => "float32" | float64 => "float64"
  | complex64 => "complex64" | complex128 => "complex128"
  end%string.

(** Index order used to linearise a multidimensional array:
    ["C"] (row-major) or ["F"] (column-major). *)
Inductive order : Type := C | F.

(** An array is a typed, strided window on a block of bytes: the element
    at index [i0, .., ik] starts at byte [offset + i0*s0 + .. + ik*sk]. *)
Record ndarray : Type := mk_ndarray {
  arr_dtype : dtype;
  shape : list nat;
  strides : list Z;
  offset : Z;
  data : list byte
}.

Definition prod (sh : list nat) : nat := fold_right Nat.mul 1 sh.

Definition ndim (a : ndarray) : nat := length (shape a).
Definition size (a : ndarray) : nat := prod (shape a).
Definition nbytes (a : ndarray) : nat := size a * itemsize (arr_dtype a).

(** All indices of an array of shape [sh], last axis varying fastest. *)
Fixpoint indices_C (sh : list nat) : list (list nat) :=
  match sh with
  | [] => [[]]
  | n :: sh' => flat_map (fun i => map (cons i) (indices_C sh')) (seq 0 n)
  end.

(** The same indices, first axis varying fastest. *)
Definition indices_F (sh : list nat) : list (list nat) :=
  map (@rev nat) (indices_C (rev sh)).

Definition indices (o : order) (sh : list nat) : list (list nat) :=
  match o with C => indices_C sh | F => indices_F sh end.

Fixpoint dot (idx : list nat) (st : list Z) : Z :=
  match idx, st with
  | i :: idx', s :: st' => (Z.of_nat i * s + dot idx' st')%Z
  | _, _ => 0%Z
  end.

Definition read_bytes (mem : list byte) (pos : Z) (n : nat) : list byte :=
  map (fun k => nth (Z.to_nat (pos + Z.of_nat k)) mem x00) (seq 0 n).

(** The bytes of one element. *)
Definition item (a : ndarray) (idx : list nat) : list byte :=
  read_bytes (data a) (offset a + dot idx (strides a))
             (itemsize (arr_dtype a)).

(** The elements of [a] listed in index order [o]. *)
Definition elements (o : order) (a : ndarray) : list (list byte) :=
  map (item a) (indices o (shape a)).

(** Strides of a contiguous array of shape [sh] with items of [s] bytes. *)
Fixpoint strides_C (sh : list nat) (s : nat) : list Z :=
  match sh with
  | [] => []
  | _ :: sh' => Z.of_nat (prod sh' * s) :: strides_C sh' s
  end.

Definition strides_F (sh : list nat) (s : nat) : list Z :=
  rev (strides_C (rev sh) s).

Definition strides_for (o : order) (sh : list nat) (s : nat) : list Z :=
  match o with C => strides_C sh s | F => strides_F sh s end.

(** A freshly allocated array of shape [sh] whose memory holds [mem],
    laid out contiguously in order [o]. *)
Definition fresh (d : dtype) (sh : list nat) (o : order) (mem : list byte)
  : ndarray :=
  {| arr_dtype := d; shape := sh; strides := strides_for o sh (itemsize d);
     offset := 0; data := mem |}.

(** numpy's contiguity test along one traversal of the axes: axes of
    extent 1 are skipped, the others must have the running stride. *)
Fixpoint contig_from (sd : Z) (dims : list nat) (st : list Z) : bool :=
  match dims, st with
  | d :: dims', s :: st' =>
      if d =? 1 then contig_from sd dims' st'
      else (s =? sd)%Z && contig_from (sd * Z.of_nat d) dims' st'
  | _, _ => true
  end.

Definition has_zero (sh : list nat) : bool := existsb (Nat.eqb 0) sh.

(** [a.flags.c_contiguous] *)
Definition c_contiguous (a : ndarray) : bool :=
  has_zero (shape a)
  || contig_from (Z.of_nat (itemsize (arr_dtype a)))
                 (rev (shape a)) (rev (strides a)).

(** [a.flags.f_contiguous] *)
Definition f_contiguous (a : ndarray) : bool :=
  has_zero (shape a)
  || contig_from (Z.of_nat (itemsize (arr_dtype a))) (shape a) (strides a).

(** What order ["A"] resolves to: ["F"] if the array is Fortran
    contiguous and not C contiguous, ["C"] otherwise. *)
Definition any_order (a : ndarray) : order :=
  if f_contiguous a && negb (c_contiguous a) then F else C.

(** [a.tobytes(order=o)] *)
Definition tobytes (a : ndarray) (o : order) : list byte :=
  concat (elements o a).

(** [a.copy(order="A")] *)
Definition copy_A (a : ndarray) : ndarray :=
  let o := any_order a in
  fresh (arr_dtype a) (shape a) o (tobytes a o).

(** [a.ravel(order=o)]: the elements in order [o], as a one-dimensional
    contiguous array.  numpy returns a view of [a] when the layout of [a]
    allows it and a copy otherwise; the copy is what is built here. *)
Definition ravel (a : ndarray) (o : order) : ndarray :=
  fresh (arr_dtype a) [size a] C (tobytes a o).

(** [a.reshape(sh, order=o)]: read the elements in order [o] and place
    them in an array of shape [sh] in order [o]; the element counts must
    agree.  numpy returns a view of [a] when the layout of [a] allows it
    and a copy otherwise.  The copy is what is built here: shape, element
    type and elements are numpy's, while strides, offset and memory block
    are those of a freshly laid out array, which numpy's are not for a
    view of an array with gaps or for a shape with an axis of extent 0. *)
Definition reshape (a : ndarray) (sh : list nat) (o : order)
  : result ndarray :=
  if size a =? prod sh
  then Ok (fresh (arr_dtype a) sh o (tobytes a o))
  else Err ValueError.

(** [a.view(d)]: the same memory under another element type.  When the
    item size changes, the last axis is resized; numpy refuses a
    zero-dimensional array, a last axis that is not contiguous, and a
    byte length of the last axis that the new item size does not
    divide. *)
Definition view (a : ndarray) (d : dtype) : result ndarray :=
  let old := itemsize (arr_dtype a) in
  let new := itemsize d in
  let relabel (sh : list nat) (st : list Z) :=
    {| arr_dtype := d; shape := sh; strides := st;
       offset := offset a; data := data a |} in
  if new =? old then Ok (relabel (shape a) (strides a))
  else if ndim a =? 0 then Err ValueError
  else
    let n := last (shape a) 0 in
    let resized (n' : nat) :=
      relabel (removelast (shape a) ++ [n'])
              (removelast (strides a) ++ [Z.of_nat new]) in
    if negb (n =? 1) && negb (size a =? 0)
       && negb (last (strides a) 0 =? Z.of_nat old)%Z
    then Err ValueError
    else if new <? old then
      if (new =? 0) || negb (old mod new =? 0) then Err ValueError
      else Ok (resized (n * (old / new)))
    else
      if negb ((n * old) mod new =? 0) then Err ValueError
      else Ok (resized ((n * old) / new)).

(** [np.frombuffer(bs, dtype=d)] *)
Definition frombuffer (d : dtype) (bs : list byte) : result ndarray :=
  if List.length bs mod itemsize d =? 0
  then Ok (fresh d [List.length bs / itemsize d] C bs)
  else Err ValueError.

(** Two arrays are equivalent when they have the same element type, the
    same shape and the same element at every index, whatever their
    memory layout. *)
Definition equiv (a b : ndarray) : Prop :=
  arr_dtype a = arr_dtype b /\ shape a = shape b
  /\ elements C a = elements C b.

End np.

(** ** The parts of numcodecs the pipeline uses *)

Module numcodecs.

(** What a transform is given and what it returns: a Python [bytes]
    object, which has no shape and no element type, or an array. *)
Inductive buffer_like : Type :=
| Bytes (b : list byte)
| Array (a : np.ndarray).

(** A resolved transform: a forward and an inverse operation, either of
    which may raise. *)
Record Codec : Type := mk_Codec {
  encode : buffer_like -> result buffer_like;
  decode : buffer_like -> result buffer_like
}.

(** [numcodecs.compat.ensure_ndarray]: an array is returned as it is, a
    [bytes] object is seen through a one-dimensional array of unsigned
    bytes lying over it. *)
Definition ensure_ndarray (buf : buffer_like) : np.ndarray :=
  match buf with
  | Array a => a
  | Bytes b => np.fresh np.uint8 [List.length b] np.C b
  end.

(** [numcodecs.compat.ensure_bytes]: a [bytes] object is returned as it
    is, an array gives [arr.tobytes(order="A")]. *)
Definition ensure_bytes (buf : buffer_like) : list byte :=
  match buf with
  | Bytes b => b
  | Array a => np.tobytes a (np.any_order a)
  end.

End numcodecs.

(** An array is passed where a buffer is expected without ceremony. *)
Coercion numcodecs.Array : np.ndarray >-> numcodecs.buffer_like.
Arguments numcodecs.ensure_bytes : simpl never.
Arguments numcodecs.ensure_ndarray : simpl never.

(** ** Buffers and chunk specifications *)

(** Modelled from the spec: [zarr.buffer.Buffer] is not among the sources;
    it is "an owned, contiguous byte sequence with no shape/dtype
    metadata", seen by transforms as a flat array of one-byte items. *)
Module Buffer.
Definition t : Type := list byte.
Definition from_bytes (b : list byte) : t := b.
Definition as_array_like (b : t) : np.ndarray :=
  np.fresh np.int8 [List.length b] np.C b.
End Buffer.

(** Modelled from the spec: [zarr.buffer.NDBuffer] is not among the
    sources; it is "an owned, in-memory array with a concrete dtype,
    shape, and memory order", here the array itself. *)
Module NDBuffer.
Definition t : Type := np.ndarray.
Definition from_numpy_array (a : np.ndarray) : t := a.
Definition as_numpy_array (b : t) : np.ndarray := b.
End NDBuffer.

(** Modelled from the spec: [zarr.common.ArraySpec] is not among the
    sources; it is the "ChunkSpec" descriptor: logical [shape], element
    type [dtype] and memory [order]. *)
Module ArraySpec.
Record t : Type := mk {
  shape : list nat;
  dtype : np.dtype;
  order : np.order
}.
End ArraySpec.

Fixpoint shape_eqb (s1 s2 : list nat) : bool :=
  match s1, s2 with
  | [], [] => true
  | n1 :: s1', n2 :: s2' => (n1 =? n2) && shape_eqb s1' s2'
  | _, _ => false
  end.

(** ** Effects: failure and a log of the calls made to transforms *)

Inductive direction : Type := Forward | Inverse.

Section Effects.

Context {config : Type}.

(** What an observer of the registry and of the worker pool sees. *)
Inductive event : Type :=
| Resolved (cfg : config)
| Offloaded (cfg : config) (d : direction)
            (input : numcodecs.buffer_like)
            (output : result numcodecs.buffer_like).

Definition M (A : Type) : Type := list event -> result A * list event.

Definition ret {A} (a : A) : M A := fun log => (Ok a, log).

Definition raise {A} (e : exn) : M A := fun log => (Err e, log).

Definition bind {A B} (m : M A) (k : A -> M B) : M B :=
  fun log =>
    match m log with
    | (Ok a, log') => k a log'
    | (Err e, log') => (Err e, log')
    end.

Definition lift {A} (r : result A) : M A := fun log => (r, log).

(** [for x in l: s = body(x, s)] *)
Fixpoint for_each {A S} (l : list A) (body : A -> S -> M S) (s : S) : M S :=
  match l with
  | [] => ret s
  | x :: l' => bind (body x s) (for_each l' body)
  end.

(** The registry, [numcodecs.get_codec], is external. *)
Variable get_codec : config -> result numcodecs.Codec.

Definition numcodecs_get_codec (cfg : config) : M numcodecs.Codec :=
  fun log => (get_codec cfg, log ++ [Resolved cfg]).

(** [await to_thread(f, x)]: the call runs to completion before the
    caller goes on.  [cfg] and [d] name the transform operation [f]. *)
Definition to_thread (cfg : config) (d : direction)
    (f : numcodecs.buffer_like -> result numcodecs.buffer_like)
    (x : numcodecs.buffer_like) : M numcodecs.buffer_like :=
  fun log => let r := f x in (r, log ++ [Offloaded cfg d x r]).

End Effects.

Arguments event : clear implicits.
Arguments M : clear implicits.

Declare Scope pipeline_scope.
Delimit Scope pipeline_scope with pipeline.
Notation "x <- m ;; k" := (bind m (fun x => k))
  (at level 61, m at next level, right associativity) : pipeline_scope.
Open Scope pipeline_scope.

(** ** The compressor stage *)

Module V2Compressor.
Section WithRegistry.

Context {config : Type}.
Variable get_codec : config -> result numcodecs.Codec.

Definition decode_single (compressor : option config)
    (chunk_bytes : option Buffer.t) (chunk_spec : ArraySpec.t)
  : M config (option NDBuffer.t) :=
  match chunk_bytes with
  | None => ret None
  | Some chunk_bytes =>
      chunk_numpy_array <-
        match compressor with
        | Some cfg =>
            compressor <- numcodecs_get_codec get_codec cfg ;;
            decoded <- to_thread cfg Inverse (numcodecs.decode compressor)
                         (numcodecs.Array (Buffer.as_array_like chunk_bytes)) ;;
            ret (numcodecs.ensure_ndarray decoded)
        | None =>
            ret (numcodecs.ensure_ndarray
                   (numcodecs.Array (Buffer.as_array_like chunk_bytes)))
        end ;;
      (* ensure correct dtype *)
      chunk_numpy_array <-
        (if negb (String.eqb (np.str (np.arr_dtype chunk_numpy_array))
                             (np.str (ArraySpec.dtype chunk_spec)))
         then lift (np.view chunk_numpy_array (ArraySpec.dtype chunk_spec))
         else ret chunk_numpy_array) ;;
      ret (Some (NDBuffer.from_numpy_array chunk_numpy_array))
  end.

Definition encode_single (compressor : option config)
    (chunk_array : NDBuffer.t) (_chunk_spec : ArraySpec.t)
  : M config Buffer.t :=
  let chunk_numpy_array := NDBuffer.as_numpy_array chunk_array in
  encoded_chunk_bytes <-
    match compressor with
    | Some cfg =>
        compressor <- numcodecs_get_codec get_codec cfg ;;
        let chunk_numpy_array :=
          if negb (np.c_contiguous chunk_numpy_array)
             && negb (np.f_contiguous chunk_numpy_array)
          then np.copy_A chunk_numpy_array
          else chunk_numpy_array in
        encoded <- to_thread cfg Forward (numcodecs.encode compressor)
                             (numcodecs.Array chunk_numpy_array) ;;
        ret (numcodecs.ensure_bytes encoded)
    | None => ret (numcodecs.ensure_bytes (numcodecs.Array chunk_numpy_array))
    end ;;
  ret (Buffer.from_bytes encoded_chunk_bytes).

Definition compute_encoded_size (_input_byte_length : Z)
    (_chunk_spec : ArraySpec.t) : result Z :=
  Err NotImplementedError.

End WithRegistry.
End V2Compressor.

(** ** The filter chain *)

Module V2Filters.
Section WithRegistry.

Context {config : Type}.
Variable get_codec : config -> result numcodecs.Codec.

(** The buffer types are external: what [NDBuffer.from_numpy_array] makes
    of an object that is not an array, the [bytes] a filter may return,
    is left to this parameter. *)
Variable array_of_bytes : list byte -> result np.ndarray.

(** The working value of the loops is whatever the last filter returned:
    an array, or a [bytes] object. *)
Definition decode_single (filters : option (list config))
    (chunk_array : NDBuffer.t) (chunk_spec : ArraySpec.t)
  : M config NDBuffer.t :=
  let chunk_numpy_array :=
    numcodecs.Array (NDBuffer.as_numpy_array chunk_array) in
  (* apply filters in reverse order *)
  chunk_numpy_array <-
    match filters with
    | Some filters =>
        for_each (rev filters)
          (fun filter_metadata chunk_numpy_array =>
             filter <- numcodecs_get_codec get_codec filter_metadata ;;
             to_thread filter_metadata Inverse (numcodecs.decode filter)
                       chunk_numpy_array)
          chunk_numpy_array
    | None => ret chunk_numpy_array
    end ;;
  (* ensure correct chunk shape *)
  match chunk_numpy_array with
  | numcodecs.Bytes _ => raise AttributeError  (* bytes has no .shape *)
  | numcodecs.Array chunk_numpy_array =>
      chunk_numpy_array <-
        (if negb (shape_eqb (np.shape chunk_numpy_array)
                            (ArraySpec.shape chunk_spec))
         then lift (np.reshape chunk_numpy_array (ArraySpec.shape chunk_spec)
                               (ArraySpec.order chunk_spec))
         else ret chunk_numpy_array) ;;
      ret (NDBuffer.from_numpy_array chunk_numpy_array)
  end.

Definition encode_single (filters : option (list config))
    (chunk_array : NDBuffer.t) (chunk_spec : ArraySpec.t)
  : M config NDBuffer.t :=
  let chunk_numpy_array :=
    numcodecs.Array (np.ravel (NDBuffer.as_numpy_array chunk_array)
                              (ArraySpec.order chunk_spec)) in
  chunk_numpy_array <-
    match filters with
    | Some filters =>
        for_each filters
          (fun filter_metadata chunk_numpy_array =>
             filter <- numcodecs_get_codec get_codec filter_metadata ;;
             to_thread filter_metadata Forward (numcodecs.encode filter)
                       chunk_numpy_array)
          chunk_numpy_array
    | None => raise TypeError  (* iterating over None *)
    end ;;
  match chunk_numpy_array with
  | numcodecs.Array chunk_numpy_array =>
      ret (NDBuffer.from_numpy_array chunk_numpy_array)
  | numcodecs.Bytes chunk_bytes =>
      chunk_numpy_array <- lift (array_of_bytes chunk_bytes) ;;
      ret (NDBuffer.from_numpy_array chunk_numpy_array)
  end.

Definition compute_encoded_size (_input_byte_length : Z)
    (_chunk_spec : ArraySpec.t) : result Z :=
  Err NotImplementedError.

End WithRegistry.
End V2Filters.

(** ** The two stages composed *)

Section Pipeline.

Context {config : Type}.
Variable get_codec : config -> result numcodecs.Codec.
Variable array_of_bytes : list byte -> result np.ndarray.

(** Modelled from the spec: the code sequencing the two stages is not
    among the sources.  "Encode direction: raw chunk array, Filter Chain
    (forward order), Compressor Stage, byte sequence." *)
Definition pipeline_encode (filters : option (list config))
    (compressor : option config)
    (chunk : NDBuffer.t) (spec : ArraySpec.t) : M config Buffer.t :=
  filtered <- V2Filters.encode_single get_codec array_of_bytes
                                      filters chunk spec ;;
  V2Compressor.encode_single get_codec compressor filtered spec.

(** Modelled from the spec: "Decode direction: byte sequence, Compressor
    Stage (inverse), Filter Chain (reverse order), raw chunk array"; the
    "no data" sentinel "must short-circuit the remaining pipeline". *)
Definition pipeline_decode (filters : option (list config))
    (compressor : option config)
    (chunk_bytes : option Buffer.t) (spec : ArraySpec.t)
  : M config (option NDBuffer.t) :=
  decompressed <-
    V2Compressor.decode_single get_codec compressor chunk_bytes spec ;;
  match decompressed with
  | None => ret None
  | Some a =>
      chunk <- V2Filters.decode_single get_codec filters a spec ;;
      ret (Some chunk)
  end.

End Pipeline.

(** ** Vocabulary of the properties *)

(** A flat buffer: one axis whose items lie one after the other in
    memory, as a [bytes] object or a raveled array does. *)
Definition flat_buffer (a : np.ndarray) : Prop :=
  List.length (np.shape a) = 1 /\ List.length (np.strides a) = 1
  /\ np.c_contiguous a = true.

(** The C-order byte image of a strided window, axis by axis. *)
Fixpoint image (mem : list byte) (s : nat) (sh : list nat) (st : list Z)
    (off : Z) : list byte :=
  match sh, st with
  | n :: sh', t :: st' =>
      concat (map (fun i => image mem s sh' st' (off + Z.of_nat i * t))
                  (seq 0 n))
  | _, _ => np.read_bytes mem off s
  end.

(** The chunk is the one its specification describes. *)
Definition conforms (chunk : np.ndarray) (spec : ArraySpec.t) : Prop :=
  np.shape chunk = ArraySpec.shape spec
  /\ np.arr_dtype chunk = ArraySpec.dtype spec.

Section Vocabulary.

Context {config : Type}.
Variable get_codec : config -> result numcodecs.Codec.
Variable array_of_bytes : list byte -> result np.ndarray.

(** The transform operations offloaded in a run, in the order of the
    calls. *)
Definition offloads (log : list (event config))
  : list (config * direction) :=
  flat_map (fun ev => match ev with
                      | Offloaded cfg d _ _ => [(cfg, d)]
                      | Resolved _ => []
                      end) log.

(** Every offloaded call of the log received the result of the call
    before it, the first one receiving [x]; nothing is called after a
    call that raised. *)
Fixpoint chained (x : numcodecs.buffer_like) (log : list (event config))
  : Prop :=
  match log with
  | [] => True
  | Resolved _ :: rest => chained x rest
  | Offloaded _ _ input output :: rest =>
      input = x /\
      match output with
      | Ok y => chained y rest
      | Err _ => offloads rest = []
      end
  end.

Definition is_prefix {A} (l1 l2 : list A) : Prop :=
  exists rest, l2 = l1 ++ rest.

(** The operation of a resolved transform that a direction names. *)
Definition operation (d : direction) (c : numcodecs.Codec)
  : numcodecs.buffer_like -> result numcodecs.buffer_like :=
  match d with
  | Forward => numcodecs.encode c
  | Inverse => numcodecs.decode c
  end.

(** Every offloaded call of the log is a call of the operation its
    direction names, of the transform the registry resolves its
    configuration to: the output recorded is what that operation makes of
    the input recorded. *)
Fixpoint genuine (log : list (event config)) : Prop :=
  match log with
  | [] => True
  | Resolved _ :: rest => genuine rest
  | Offloaded cfg d input output :: rest =>
      (exists c, get_codec cfg = Ok c /\ output = operation d c input)
      /\ genuine rest
  end.

(** The operations of the transforms of [fs] in direction [d], composed
    in list order and applied to [x]; the first failure is the result. *)
Fixpoint composed (d : direction) (fs : list config)
    (x : numcodecs.buffer_like) : result numcodecs.buffer_like :=
  match fs with
  | [] => Ok x
  | f :: rest =>
      match get_codec f with
      | Ok c =>
          match operation d c x with
          | Ok y => composed d rest y
          | Err e => Err e
          end
      | Err e => Err e
      end
  end.

(** What [V2Filters.encode_single] returns for the value [x] the filters
    left. *)
Definition wrapped (x : numcodecs.buffer_like) : result NDBuffer.t :=
  match x with
  | numcodecs.Array a => Ok (NDBuffer.from_numpy_array a)
  | numcodecs.Bytes b =>
      match array_of_bytes b with
      | Ok a => Ok (NDBuffer.from_numpy_array a)
      | Err e => Err e
      end
  end.

(** What [V2Filters.decode_single] returns for the value [y] the inverse
    filters left: the shape reconciliation. *)
Definition reconciled (y : numcodecs.buffer_like) (spec : ArraySpec.t)
  : result NDBuffer.t :=
  match y with
  | numcodecs.Bytes _ => Err AttributeError
  | numcodecs.Array a =>
      if shape_eqb (np.shape a) (ArraySpec.shape spec)
      then Ok (NDBuffer.from_numpy_array a)
      else np.reshape a (ArraySpec.shape spec) (ArraySpec.order spec)
  end.

(** Two values a transform may be given are alike when they are the same
    [bytes], or arrays with the same element type, shape and elements. *)
Definition similar (x y : numcodecs.buffer_like) : Prop :=
  match x, y with
  | numcodecs.Array a, numcodecs.Array b => np.equiv a b
  | numcodecs.Bytes a, numcodecs.Bytes b => a = b
  | _, _ => False
  end.

(** What the compressor stage hands to the filter stage for the stored
    array [e]: a flat array of the element type of the specification
    holding the bytes of [e]. *)
Definition relabelled (spec : ArraySpec.t) (e : np.ndarray)
    (v : numcodecs.buffer_like) : Prop :=
  exists a, v = numcodecs.Array a
            /\ flat_buffer a
            /\ np.arr_dtype a = ArraySpec.dtype spec
            /\ numcodecs.ensure_bytes a = numcodecs.ensure_bytes e.

(** The filters, applied in turn starting from [x], each resolve and
    succeed, and the inverse of each returns a value [alike] the one the
    filter was given: the inverse of the last filter when it is given a
    value that is [handed] to it, the inverse of any other filter when it
    is given a value [alike] the one the filter returned.  [alike] is the
    sense in which the transforms are inverse to one another: [similar],
    or a finer relation (equal values laid out contiguously, for
    transforms that insist on contiguous memory; the very same value). *)
Fixpoint filters_inverse
    (alike : numcodecs.buffer_like -> numcodecs.buffer_like -> Prop)
    (handed : numcodecs.buffer_like -> Prop)
    (filters : list config) (x : numcodecs.buffer_like) : Prop :=
  match filters with
  | [] => True
  | f :: rest =>
      exists c e,
        get_codec f = Ok c /\ numcodecs.encode c x = Ok e
        /\ (forall e',
              match rest with
              | [] => handed e'
              | _ :: _ => alike e' e
              end ->
              exists y, numcodecs.decode c e' = Ok y /\ alike y x)
        /\ filters_inverse alike handed rest e
  end.

(** The compressor, if any, resolves, compresses [x], and decompresses
    what was stored into a flat buffer holding the bytes of [x]. *)
Definition compressor_invertible (compressor : option config)
    (x : np.ndarray) : Prop :=
  match compressor with
  | None => True
  | Some cfg =>
      exists c e raw,
        get_codec cfg = Ok c
        /\ numcodecs.encode c
             (numcodecs.Array
                (if negb (np.c_contiguous x) && negb (np.f_contiguous x)
                 then np.copy_A x else x)) = Ok e
        /\ numcodecs.decode c
             (Buffer.as_array_like
                (Buffer.from_bytes (numcodecs.ensure_bytes e))) = Ok raw
        /\ flat_buffer (numcodecs.ensure_ndarray raw)
        /\ numcodecs.ensure_bytes raw = numcodecs.ensure_bytes x
  end.

(** [e] is what the filter chain makes of the chunk. *)
Definition filtered_to (filters : list config) (chunk : np.ndarray)
    (spec : ArraySpec.t) (e : np.ndarray) : Prop :=
  exists log,
    V2Filters.encode_single get_codec array_of_bytes (Some filters) chunk spec []
    = (Ok e, log).

(** The first step of [V2Compressor.decode_single], on its own: the array
    obtained from the stored bytes before the dtype is looked at. *)
Definition decompressed (compressor : option config)
    (chunk_bytes : Buffer.t) : M config np.ndarray :=
  match compressor with
  | Some cfg =>
      compressor <- numcodecs_get_codec get_codec cfg ;;
      decoded <- to_thread cfg Inverse (numcodecs.decode compressor)
                           (Buffer.as_array_like chunk_bytes) ;;
      ret (numcodecs.ensure_ndarray decoded)
  | None => ret (numcodecs.ensure_ndarray (Buffer.as_array_like chunk_bytes))
  end.

(** One step of a filter loop: resolve, then offload. *)
Definition filter_step (d : direction)
    (op : numcodecs.Codec ->
          numcodecs.buffer_like -> result numcodecs.buffer_like)
    (filter_metadata : config) (chunk_numpy_array : numcodecs.buffer_like)
  : M config numcodecs.buffer_like :=
  filter <- numcodecs_get_codec get_codec filter_metadata ;;
  to_thread filter_metadata d (op filter) chunk_numpy_array.

(** The first step of [V2Filters.encode_single], on its own: the value
    the filters leave, before it is wrapped. *)
Definition filtered (filters : option (list config))
    (chunk_array : NDBuffer.t) (chunk_spec : ArraySpec.t)
  : M config numcodecs.buffer_like :=
  match filters with
  | Some filters =>
      for_each filters (filter_step Forward numcodecs.encode)
               (numcodecs.Array
                  (np.ravel (NDBuffer.as_numpy_array chunk_array)
                            (ArraySpec.order chunk_spec)))
  | None => raise TypeError
  end.

(** The first step of [V2Filters.decode_single], on its own: the value
    the inverse filters leave, before the shape is looked at. *)
Definition unfiltered (filters : option (list config))
    (chunk_array : NDBuffer.t) : M config numcodecs.buffer_like :=
  match filters with
  | Some filters =>
      for_each (rev filters) (filter_step Inverse numcodecs.decode)
               (numcodecs.Array (NDBuffer.as_numpy_array chunk_array))
  | None => ret (numcodecs.Array (NDBuffer.as_numpy_array chunk_array))
  end.

(** The call made to the compressor, if there is one. *)
Definition compressor_call (compressor : option config) (d : direction)
  : list (config * direction) :=
  match compressor with Some cfg => [(cfg, d)] | None => [] end.

End Vocabulary.

(** ** Test doubles and fixtures *)

Module doubles.

(** A filter that stores the bytes of its input behind a one-byte
    header, and strips the header again. *)
Definition header (d : np.dtype) : numcodecs.Codec :=
  {| numcodecs.encode := fun x =>
       Ok (numcodecs.Array
             (Buffer.as_array_like (x00 :: numcodecs.ensure_bytes x)));
     numcodecs.decode := fun e =>
       match numcodecs.ensure_bytes e with
       | [] => Err (Raised "truncated")
       | _ :: bs =>
           match np.frombuffer d bs with
           | Ok a => Ok (numcodecs.Array a)
           | Err err => Err err
           end
       end |}.

(** A transform that stores the bytes of its input back to front. *)
Definition reversal (d : np.dtype) : numcodecs.Codec :=
  {| numcodecs.encode := fun x =>
       Ok (numcodecs.Array
             (Buffer.as_array_like (rev (numcodecs.ensure_bytes x))));
     numcodecs.decode := fun e =>
       match np.frombuffer d (rev (numcodecs.ensure_bytes e)) with
       | Ok a => Ok (numcodecs.Array a)
       | Err err => Err err
       end |}.

(** A filter that looks at the element type: it turns the bytes of an
    array of type [d] back to front, keeping the type, and refuses
    anything else, in either direction. *)
Definition strict (d : np.dtype) : numcodecs.Codec :=
  let turn (x : numcodecs.buffer_like) :=
    match x with
    | numcodecs.Array a =>
        if String.eqb (np.str (np.arr_dtype a)) (np.str d)
        then match np.frombuffer d (rev (numcodecs.ensure_bytes x)) with
             | Ok y => Ok (numcodecs.Array y)
             | Err err => Err err
             end
        else Err TypeError
    | numcodecs.Bytes _ => Err TypeError
    end in
  {| numcodecs.encode := turn; numcodecs.decode := turn |}.

(** A filter that stores an array of type [d] as an array of type [d']
    over the same bytes, and insists on the type it is given, in either
    direction. *)
Definition recast (d d' : np.dtype) : numcodecs.Codec :=
  let cast (from to : np.dtype) (x : numcodecs.buffer_like) :=
    match x with
    | numcodecs.Array a =>
        if String.eqb (np.str (np.arr_dtype a)) (np.str from)
        then match np.frombuffer to (numcodecs.ensure_bytes x) with
             | Ok y => Ok (numcodecs.Array y)
             | Err err => Err err
             end
        else Err TypeError
    | numcodecs.Bytes _ => Err TypeError
    end in
  {| numcodecs.encode := cast d d'; numcodecs.decode := cast d' d |}.

(** A transform working on [bytes], as compressors do: it returns the
    bytes of what it is given, in either direction. *)
Definition plain : numcodecs.Codec :=
  {| numcodecs.encode := fun x =>
       Ok (numcodecs.Bytes (numcodecs.ensure_bytes x));
     numcodecs.decode := fun e =>
       Ok (numcodecs.Bytes (numcodecs.ensure_bytes e)) |}.

(** A registry knowing six transforms, named by strings. *)
Definition registry (cfg : string) : result numcodecs.Codec :=
  if String.eqb cfg "header" then Ok (header np.int16)
  else if String.eqb cfg "reversal" then Ok (reversal np.int16)
  else if String.eqb cfg "pack" then Ok (reversal np.uint8)
  else if String.eqb cfg "strict" then Ok (strict np.int16)
  else if String.eqb cfg "narrow" then Ok (recast np.int16 np.uint8)
  else if String.eqb cfg "plain" then Ok plain
  else Err (Raised "codec not available").

(** A stand-in for the wrapping of [bytes]: no array is made of them. *)
Definition array_of_bytes (b : list byte) : result np.ndarray :=
  Err TypeError.

(** One 16-bit integer. *)
Definition one16 : np.ndarray := np.fresh np.int16 [1] np.C [x01; x00].
Definition spec_one16 : ArraySpec.t := ArraySpec.mk [1] np.int16 np.C.

(** What the header filter makes of it. *)
Definition one16_filtered : np.ndarray :=
  Buffer.as_array_like [x00; x01; x00].

(** What the narrowing filter makes of it. *)
Definition one16_narrowed : np.ndarray :=
  np.fresh np.uint8 [2] np.C [x01; x00].

(** A 2 by 3 array of the 16-bit integers 0..5, to be stored column-major. *)
Definition grid16 : np.ndarray :=
  np.fresh np.int16 [2; 3] np.C
    [x00; x00; x01; x00; x02; x00; x03; x00; x04; x00; x05; x00].
Definition spec_grid16 : ArraySpec.t := ArraySpec.mk [2; 3] np.int16 np.F.

(** What the filters "strict" then "reversal" make of it: the bytes of
    its column-major image, turned back to front twice. *)
Definition grid16_filtered : np.ndarray :=
  Buffer.as_array_like
    [x00; x00; x03; x00; x01; x00; x04; x00; x02; x00; x05; x00].

(** The 4-byte floats 0.0 .. 15.0, little-endian. *)
Definition floats_0_15 : list (list byte) :=
  [ [x00; x00; x00; x00]; [x00; x00; x80; x3f];
    [x00; x00; x00; x40]; [x00; x00; x40; x40];
    [x00; x00; x80; x40]; [x00; x00; xa0; x40];
    [x00; x00; xc0; x40]; [x00; x00; xe0; x40];
    [x00; x00; x00; x41]; [x00; x00; x10; x41];
    [x00; x00; x20; x41]; [x00; x00; x30; x41];
    [x00; x00; x40; x41]; [x00; x00; x50; x41];
    [x00; x00; x60; x41]; [x00; x00; x70; x41] ].

(** The 4 by 4 row-major array of these floats. *)
Definition ramp44 : np.ndarray :=
  np.fresh np.float32 [4; 4] np.C (concat floats_0_15).
Definition spec_ramp44 : ArraySpec.t := ArraySpec.mk [4; 4] np.float32 np.C.

(** Every other byte of every other row of a 4 by 4 byte block: a 2 by 2
    window that is neither C nor Fortran contiguous. *)
Definition window22 : np.ndarray :=
  np.mk_ndarray np.int8 [2; 2] [8%Z; 2%Z] 0
    [x00; x01; x02; x03; x04; x05; x06; x07;
     x08; x09; x0a; x0b; x0c; x0d; x0e; x0f].
Definition spec_window22 : ArraySpec.t := ArraySpec.mk [2; 2] np.int8 np.C.

End doubles.

(** * Proofs *)

(** ** Facts about index enumeration *)

Lemma length_flat_map_const {A B} (f : A -> list B) (l : list A) (k : nat) :
  (forall x, In x l -> List.length (f x) = k) ->
  List.length (flat_map f l) = List.length l * k.
Proof.
  induction l as [|x l IH]; intros H; simpl; [reflexivity|].
  rewrite length_app, H by (left; reflexivity).
  rewrite IH by (intros y Hy; apply H; right; exact Hy). lia.
Qed.

Lemma length_indices_C (sh : list nat) :
  List.length (np.indices_C sh) = np.prod sh.
Proof.
  induction sh as [|n sh IH]; simpl; [reflexivity|].
  rewrite (length_flat_map_const _ _ (np.prod sh)).
  - now rewrite length_seq.
  - intros i _. now rewrite length_map.
Qed.

Lemma prod_app (l1 l2 : list nat) :
  np.prod (l1 ++ l2) = np.prod l1 * np.prod l2.
Proof.
  induction l1 as [|n l1 IH]; simpl; [lia|]. rewrite IH. lia.
Qed.

Lemma prod_rev (sh : list nat) : np.prod (rev sh) = np.prod sh.
Proof.
  induction sh as [|n sh IH]; simpl; [reflexivity|].
  rewrite prod_app, IH. simpl. lia.
Qed.

Lemma length_indices (o : np.order) (sh : list nat) :
  List.length (np.indices o sh) = np.prod sh.
Proof.
  destruct o; simpl.
  - apply length_indices_C.
  - unfold np.indices_F. now rewrite length_map, length_indices_C, prod_rev.
Qed.

Lemma In_indices_C (sh idx : list nat) :
  In idx (np.indices_C sh) <-> Forall2 lt idx sh.
Proof.
  revert idx. induction sh as [|n sh IH]; intros idx; simpl.
  - split.
    + intros [<-|[]]. constructor.
    + intros H. inversion H. now left.
  - rewrite in_flat_map. split.
    + intros (i & Hi & Hin). apply in_seq in Hi.
      apply in_map_iff in Hin. destruct Hin as (idx' & <- & Hin').
      constructor; [lia| now apply IH].
    + intros H. inversion H as [|i n' idx' sh' Hlt Hrest]; subst.
      exists i. split; [apply in_seq; lia|].
      apply in_map. now apply IH.
Qed.

Lemma Forall2_rev {A B} (R : A -> B -> Prop) (l1 : list A) (l2 : list B) :
  Forall2 R l1 l2 -> Forall2 R (rev l1) (rev l2).
Proof.
  induction 1; simpl; [constructor|].
  apply Forall2_app; [assumption| repeat constructor; assumption].
Qed.

Lemma In_indices_F (sh idx : list nat) :
  In idx (np.indices_F sh) <-> Forall2 lt idx sh.
Proof.
  unfold np.indices_F. rewrite in_map_iff. split.
  - intros (j & <- & Hj). apply In_indices_C in Hj.
    apply Forall2_rev in Hj. now rewrite rev_involutive in Hj.
  - intros H. exists (rev idx). split; [apply rev_involutive|].
    apply In_indices_C. now apply Forall2_rev.
Qed.

Lemma In_indices (o : np.order) (sh idx : list nat) :
  In idx (np.indices o sh) <-> Forall2 lt idx sh.
Proof. destruct o; [apply In_indices_C | apply In_indices_F]. Qed.

(** Two arrays that agree on their elements listed in one order agree on
    them listed in the other. *)
Lemma elements_order_irrelevant (o o' : np.order) (a b : np.ndarray) :
  np.shape a = np.shape b ->
  np.elements o a = np.elements o b ->
  np.elements o' a = np.elements o' b.
Proof.
  unfold np.elements. intros Hsh H. rewrite <- Hsh in *.
  apply map_ext_in. intros idx Hin.
  rewrite map_ext_in_iff in H. apply H.
  apply In_indices. now apply In_indices in Hin.
Qed.

Lemma indices_C_flat (n : nat) :
  np.indices_C [n] = map (fun i => [i]) (seq 0 n).
Proof.
  simpl. generalize 0 as k. induction n as [|n IH]; intros k; simpl.
  - reflexivity.
  - now rewrite IH.
Qed.

Lemma indices_flat (o : np.order) (n : nat) :
  np.indices o [n] = map (fun i => [i]) (seq 0 n).
Proof.
  destruct o; [apply indices_C_flat|].
  unfold np.indices, np.indices_F. change (rev [n]) with [n].
  rewrite indices_C_flat, map_map. reflexivity.
Qed.

Lemma elements_flat (o : np.order) (a : np.ndarray) :
  np.ndim a = 1 -> np.elements o a = np.elements np.C a.
Proof.
  unfold np.ndim, np.elements. intros H.
  destruct (np.shape a) as [|n [|? ?]]; try discriminate.
  now rewrite !indices_flat.
Qed.

(** ** Reading a contiguous block *)

Lemma read_bytes_nat (mem : list byte) (p n : nat) :
  np.read_bytes mem (Z.of_nat p) n = map (fun k => nth (p + k) mem x00) (seq 0 n).
Proof.
  unfold np.read_bytes. apply map_ext. intros k. f_equal. lia.
Qed.

Lemma read_bytes_length (mem : list byte) (pos : Z) (n : nat) :
  List.length (np.read_bytes mem pos n) = n.
Proof. unfold np.read_bytes. now rewrite length_map, length_seq. Qed.

Lemma read_bytes_all (mem rest : list byte) :
  np.read_bytes (mem ++ rest) 0 (List.length mem) = mem.
Proof.
  change 0%Z with (Z.of_nat 0). rewrite read_bytes_nat. simpl.
  revert rest. induction mem as [|b mem IH]; intros rest; simpl; [reflexivity|].
  f_equal. rewrite <- seq_shift, map_map. apply IH.
Qed.

Lemma read_bytes_skip (pre mem : list byte) (p n : nat) :
  np.read_bytes (pre ++ mem) (Z.of_nat (List.length pre + p)) n
  = np.read_bytes mem (Z.of_nat p) n.
Proof.
  rewrite !read_bytes_nat. apply map_ext. intros k.
  rewrite <- Nat.add_assoc. apply app_nth2_plus.
Qed.

(** Cutting the concatenation of [s]-byte items back into items. *)
Lemma read_items (s : nat) (els : list (list byte)) :
  Forall (fun e => List.length e = s) els ->
  map (fun k => np.read_bytes (concat els) (Z.of_nat (k * s)) s)
      (seq 0 (List.length els)) = els.
Proof.
  induction 1 as [|e els He Hels IH]; simpl; [reflexivity|].
  f_equal.
  - subst s. apply read_bytes_all.
  - rewrite <- seq_shift, map_map. rewrite <- IH at 2.
    apply map_ext. intros k.
    replace (S k * s) with (List.length e + k * s) by (simpl; lia).
    apply read_bytes_skip.
Qed.

Lemma seq_blocks (p n : nat) :
  flat_map (fun i => seq (i * p) p) (seq 0 n) = seq 0 (n * p).
Proof.
  induction n as [|n IH]; [reflexivity|].
  rewrite seq_S, flat_map_app, IH. simpl. rewrite app_nil_r.
  replace (p + n * p) with (n * p + p) by lia.
  now rewrite seq_app.
Qed.

Lemma map_flat_map {A B C} (g : B -> C) (f : A -> list B) (l : list A) :
  map g (flat_map f l) = flat_map (fun x => map g (f x)) l.
Proof.
  induction l as [|x l IH]; simpl; [reflexivity|].
  now rewrite map_app, IH.
Qed.

Lemma flat_map_ext_in {A B} (f g : A -> list B) (l : list A) :
  (forall x, In x l -> f x = g x) -> flat_map f l = flat_map g l.
Proof.
  induction l as [|x l IH]; intros H; simpl; [reflexivity|].
  rewrite H by (left; reflexivity).
  rewrite IH by (intros y Hy; apply H; right; exact Hy). reflexivity.
Qed.

Lemma seq_from (a m : nat) : seq a m = map (fun k => a + k) (seq 0 m).
Proof.
  revert a. induction m as [|m IH]; intros a; simpl; [reflexivity|].
  f_equal; [lia|].
  rewrite (IH (S a)), <- (seq_shift m 0), map_map. apply map_ext. intros k. lia.
Qed.

(** In a C-contiguous array the elements, in C order, lie one after the
    other. *)
Lemma dot_indices_C (sh : list nat) (s : nat) :
  map (fun idx => np.dot idx (np.strides_C sh s)) (np.indices_C sh)
  = map (fun k => Z.of_nat (k * s)) (seq 0 (np.prod sh)).
Proof.
  induction sh as [|n sh IH]; simpl; [reflexivity|].
  rewrite map_flat_map.
  rewrite <- seq_blocks, map_flat_map.
  apply flat_map_ext_in. intros i _.
  rewrite map_map. simpl.
  transitivity (map (fun z => (Z.of_nat i * Z.of_nat (np.prod sh * s) + z)%Z)
                    (map (fun idx => np.dot idx (np.strides_C sh s))
                         (np.indices_C sh))).
  { now rewrite map_map. }
  rewrite IH, map_map, (seq_from (i * np.prod sh)), map_map.
  apply map_ext. intros k. nia.
Qed.

Lemma length_strides_C (sh : list nat) (s : nat) :
  List.length (np.strides_C sh s) = List.length sh.
Proof. induction sh; simpl; congruence. Qed.

Lemma dot_app (i1 i2 : list nat) (s1 s2 : list Z) :
  List.length i1 = List.length s1 ->
  np.dot (i1 ++ i2) (s1 ++ s2) = (np.dot i1 s1 + np.dot i2 s2)%Z.
Proof.
  revert s1. induction i1 as [|i i1 IH]; intros [|s s1] H;
    try discriminate; simpl; [reflexivity|].
  rewrite IH by (simpl in H; lia). lia.
Qed.

Lemma dot_rev (idx : list nat) (st : list Z) :
  List.length idx = List.length st ->
  np.dot (rev idx) (rev st) = np.dot idx st.
Proof.
  revert st. induction idx as [|i idx IH]; intros [|s st] H;
    try discriminate; simpl; [reflexivity|].
  rewrite dot_app by (rewrite !length_rev; simpl in H; lia).
  rewrite IH by (simpl in H; lia). simpl. lia.
Qed.

(** In an array laid out contiguously in order [o] the elements, listed
    in order [o], lie one after the other. *)
Lemma dot_indices (o : np.order) (sh : list nat) (s : nat) :
  map (fun idx => np.dot idx (np.strides_for o sh s)) (np.indices o sh)
  = map (fun k => Z.of_nat (k * s)) (seq 0 (np.prod sh)).
Proof.
  destruct o; simpl; [apply dot_indices_C|].
  unfold np.indices_F, np.strides_F. rewrite map_map.
  rewrite <- prod_rev, <- dot_indices_C.
  apply map_ext_in. intros idx Hin. apply dot_rev.
  apply In_indices_C, Forall2_length in Hin.
  now rewrite length_strides_C.
Qed.

Lemma elements_fresh (o : np.order) (d : np.dtype) (sh : list nat)
    (mem : list byte) :
  np.elements o (np.fresh d sh o mem)
  = map (fun k => np.read_bytes mem (Z.of_nat (k * np.itemsize d))
                                (np.itemsize d))
        (seq 0 (np.prod sh)).
Proof.
  unfold np.elements, np.item. simpl.
  rewrite <- (map_map (fun k => Z.of_nat (k * np.itemsize d))
                      (fun z => np.read_bytes mem z (np.itemsize d))).
  rewrite <- (dot_indices o), map_map. reflexivity.
Qed.

Lemma elements_item_length (o : np.order) (a : np.ndarray) :
  Forall (fun e => List.length e = np.itemsize (np.arr_dtype a))
         (np.elements o a).
Proof.
  unfold np.elements. apply Forall_map, Forall_forall. intros idx _.
  apply read_bytes_length.
Qed.

Lemma length_elements (o : np.order) (a : np.ndarray) :
  List.length (np.elements o a) = np.size a.
Proof. unfold np.elements. now rewrite length_map, length_indices. Qed.

Lemma length_concat_items (s : nat) (els : list (list byte)) :
  Forall (fun e => List.length e = s) els ->
  List.length (concat els) = List.length els * s.
Proof.
  induction 1 as [|e els He _ IH]; simpl; [reflexivity|].
  rewrite length_app, IH. lia.
Qed.

Lemma length_tobytes (a : np.ndarray) (o : np.order) :
  List.length (np.tobytes a o) = np.nbytes a.
Proof.
  unfold np.tobytes, np.nbytes.
  rewrite (length_concat_items _ _ (elements_item_length o a)).
  now rewrite length_elements.
Qed.

(** Laying the items [els] out contiguously in order [o] and listing the
    elements of the result in order [o] gives [els] back. *)
Lemma elements_fresh_concat (o : np.order) (d : np.dtype) (sh : list nat)
    (els : list (list byte)) :
  Forall (fun e => List.length e = np.itemsize d) els ->
  List.length els = np.prod sh ->
  np.elements o (np.fresh d sh o (concat els)) = els.
Proof.
  intros Hall Hlen. rewrite elements_fresh, <- Hlen.
  now apply read_items.
Qed.

Lemma elements_fresh_tobytes (o o' : np.order) (a : np.ndarray)
    (sh : list nat) :
  np.prod sh = np.size a ->
  np.elements o (np.fresh (np.arr_dtype a) sh o (np.tobytes a o'))
  = np.elements o' a.
Proof.
  intros H. apply elements_fresh_concat.
  - apply elements_item_length.
  - now rewrite length_elements.
Qed.

(** ** Raveling and reshaping *)

Lemma elements_ravel (o o' : np.order) (a : np.ndarray) :
  np.elements o' (np.ravel a o) = np.elements o a.
Proof.
  rewrite (elements_flat o') by reflexivity.
  unfold np.ravel. apply elements_fresh_tobytes. simpl. lia.
Qed.

Lemma reshape_ok (a : np.ndarray) (sh : list nat) (o : np.order) :
  np.size a = np.prod sh ->
  np.reshape a sh o = Ok (np.fresh (np.arr_dtype a) sh o (np.tobytes a o)).
Proof. unfold np.reshape. intros ->. now rewrite Nat.eqb_refl. Qed.

Lemma reshape_err (a : np.ndarray) (sh : list nat) (o : np.order) :
  np.size a <> np.prod sh -> np.reshape a sh o = Err ValueError.
Proof.
  unfold np.reshape. intros H. apply Nat.eqb_neq in H. now rewrite H.
Qed.

(** Reshaping the raveled array to the original shape, in the same
    order, gives an equivalent array. *)
Lemma reshape_ravel_equiv (a y : np.ndarray) (o : np.order) :
  np.equiv y (np.ravel a o) ->
  np.equiv (np.fresh (np.arr_dtype y) (np.shape a) o (np.tobytes y o)) a.
Proof.
  intros (Hd & Hs & He). unfold np.equiv. simpl.
  split; [exact Hd|]. split; [reflexivity|].
  apply (elements_order_irrelevant o); [reflexivity|].
  rewrite elements_fresh_tobytes.
  - assert (Hy : np.ndim y = 1) by (unfold np.ndim; now rewrite Hs).
    rewrite (elements_flat o y Hy), He. apply elements_ravel.
  - unfold np.size. rewrite Hs. simpl. unfold np.size. lia.
Qed.

(** ** Element types *)

Lemma itemsize_pos (d : np.dtype) : 0 < np.itemsize d.
Proof. destruct d; simpl; lia. Qed.

Lemma itemsize_divides (d1 d2 : np.dtype) :
  np.itemsize d2 < np.itemsize d1 ->
  np.itemsize d1 mod np.itemsize d2 = 0.
Proof. destruct d1, d2; simpl; intros H; try reflexivity; lia. Qed.

Lemma str_inj (d1 d2 : np.dtype) : np.str d1 = np.str d2 -> d1 = d2.
Proof. destruct d1, d2; simpl; intros H; try reflexivity; discriminate. Qed.

Lemma str_eqb_eq (d1 d2 : np.dtype) :
  String.eqb (np.str d1) (np.str d2) = true <-> d1 = d2.
Proof.
  rewrite String.eqb_eq. split; [apply str_inj | now intros ->].
Qed.

Lemma shape_eqb_eq (s1 s2 : list nat) : shape_eqb s1 s2 = true <-> s1 = s2.
Proof.
  revert s2. induction s1 as [|n s1 IH]; intros [|m s2]; simpl;
    try (split; [discriminate|discriminate]); [tauto|].
  rewrite andb_true_iff, Nat.eqb_eq, IH. split.
  - now intros [-> ->].
  - intros H. inversion H. tauto.
Qed.

(** ** Flat arrays *)

Lemma ensure_bytes_flat (a : np.ndarray) :
  np.ndim a = 1 -> numcodecs.ensure_bytes a = np.tobytes a np.C.
Proof.
  intros H. unfold numcodecs.ensure_bytes, np.tobytes.
  now rewrite (elements_flat _ a H).
Qed.


Lemma equiv_trans (a b c : np.ndarray) :
  np.equiv a b -> np.equiv b c -> np.equiv a c.
Proof.
  intros (? & ? & ?) (? & ? & ?). repeat split; congruence.
Qed.

Lemma equiv_ndim (a b : np.ndarray) : np.equiv a b -> np.ndim a = np.ndim b.
Proof. intros (_ & H & _). unfold np.ndim. now rewrite H. Qed.

Lemma equiv_ensure_bytes_flat (y x : np.ndarray) :
  np.equiv y x -> np.ndim x = 1 ->
  numcodecs.ensure_bytes y = numcodecs.ensure_bytes x.
Proof.
  intros H Hx. pose proof (equiv_ndim _ _ H) as Hy. rewrite Hx in Hy.
  rewrite !ensure_bytes_flat by assumption.
  unfold np.tobytes. destruct H as (_ & _ & ->). reflexivity.
Qed.

Lemma concat_items_inj (s : nat) (l1 l2 : list (list byte)) :
  0 < s ->
  Forall (fun e => List.length e = s) l1 ->
  Forall (fun e => List.length e = s) l2 ->
  concat l1 = concat l2 -> l1 = l2.
Proof.
  intros Hs H1 H2 Heq.
  assert (Hlen : List.length l1 = List.length l2).
  { apply (f_equal (@List.length byte)) in Heq.
    rewrite (length_concat_items _ _ H1), (length_concat_items _ _ H2) in Heq.
    nia. }
  rewrite <- (read_items _ _ H1), <- (read_items _ _ H2).
  now rewrite Heq, Hlen.
Qed.

(** Flat arrays of one element type holding the same bytes are
    equivalent. *)
Lemma flat_same_bytes_equiv (a b : np.ndarray) :
  np.ndim a = 1 -> np.ndim b = 1 ->
  np.arr_dtype a = np.arr_dtype b ->
  numcodecs.ensure_bytes a = numcodecs.ensure_bytes b ->
  np.equiv a b.
Proof.
  intros Ha Hb Hd Hbytes.
  rewrite !ensure_bytes_flat in Hbytes by assumption.
  unfold np.tobytes in Hbytes.
  apply (concat_items_inj (np.itemsize (np.arr_dtype a))) in Hbytes.
  - repeat split; try assumption.
    apply (f_equal (@List.length _)) in Hbytes.
    rewrite !length_elements in Hbytes. unfold np.size, np.ndim in *.
    destruct (np.shape a) as [|n [|? ?]]; try discriminate.
    destruct (np.shape b) as [|m [|? ?]]; try discriminate.
    simpl in Hbytes. f_equal. lia.
  - apply itemsize_pos.
  - apply elements_item_length.
  - rewrite Hd. apply elements_item_length.
Qed.

Lemma ravel_flat_equiv (a : np.ndarray) (o : np.order) :
  np.ndim a = 1 -> np.equiv (np.ravel a o) a.
Proof.
  intros H. repeat split.
  - simpl. unfold np.size, np.ndim in *.
    destruct (np.shape a) as [|n [|? ?]]; try discriminate.
    simpl. f_equal. lia.
  - rewrite elements_ravel. now apply elements_flat.
Qed.

(** ** Reading a row of contiguous items *)

Lemma read_bytes_app (mem : list byte) (pos : Z) (n m : nat) :
  np.read_bytes mem pos (n + m)
  = np.read_bytes mem pos n ++ np.read_bytes mem (pos + Z.of_nat n) m.
Proof.
  unfold np.read_bytes. rewrite seq_app, map_app. f_equal.
  simpl. rewrite (seq_from n m), map_map.
  apply map_ext. intros k. f_equal. lia.
Qed.

Lemma row_bytes (mem : list byte) (off : Z) (s n : nat) :
  concat (map (fun i => np.read_bytes mem (off + Z.of_nat i * Z.of_nat s) s)
              (seq 0 n))
  = np.read_bytes mem off (n * s).
Proof.
  induction n as [|n IH]; [reflexivity|].
  rewrite seq_S, map_app, concat_app, IH. simpl.
  rewrite app_nil_r. replace (s + n * s) with (n * s + s) by lia.
  rewrite read_bytes_app. do 2 f_equal. lia.
Qed.

(** A flat buffer: one axis whose items lie one after the other. *)
Lemma flat_buffer_bytes (a : np.ndarray) (n : nat) (st : Z) :
  np.shape a = [n] -> np.strides a = [st] -> np.c_contiguous a = true ->
  np.tobytes a np.C = np.read_bytes (np.data a) (np.offset a) (np.nbytes a).
Proof.
  intros Hsh Hst Hc. unfold np.tobytes, np.elements, np.nbytes, np.size.
  unfold np.c_contiguous in Hc. rewrite Hsh, Hst in *. simpl in Hc.
  rewrite indices_flat, map_map. unfold np.item. rewrite Hst. simpl.
  destruct n as [|[|n]].
  - reflexivity.
  - simpl. rewrite app_nil_r, Nat.add_0_r. f_equal. lia.
  - simpl in Hc. rewrite andb_true_r in Hc.
    apply Z.eqb_eq in Hc. subst st.
    rewrite Nat.mul_1_r. rewrite <- row_bytes.
    f_equal. apply map_ext. intros i. f_equal. lia.
Qed.

Lemma flat_buffer_inv (a : np.ndarray) :
  flat_buffer a ->
  exists n st, np.shape a = [n] /\ np.strides a = [st]
               /\ (n = 0 \/ n = 1 \/ st = Z.of_nat (np.itemsize (np.arr_dtype a))).
Proof.
  intros (Hsh & Hst & Hc). unfold np.c_contiguous in Hc.
  destruct (np.shape a) as [|n [|? ?]]; try discriminate.
  destruct (np.strides a) as [|st [|? ?]]; try discriminate.
  exists n, st. repeat split. simpl in Hc.
  destruct n as [|[|n]]; [tauto|tauto|].
  simpl in Hc. rewrite andb_true_r in Hc. apply Z.eqb_eq in Hc. tauto.
Qed.

Lemma flat_buffer_intro (a : np.ndarray) (n : nat) :
  np.shape a = [n] ->
  np.strides a = [Z.of_nat (np.itemsize (np.arr_dtype a))] ->
  flat_buffer a.
Proof.
  intros Hsh Hst. unfold flat_buffer, np.c_contiguous. rewrite Hsh, Hst.
  repeat split. simpl. destruct (n =? 1); [apply orb_true_r|].
  rewrite Z.eqb_refl. apply orb_true_r.
Qed.

Lemma flat_buffer_ensure_bytes (a : np.ndarray) :
  flat_buffer a ->
  numcodecs.ensure_bytes a
  = np.read_bytes (np.data a) (np.offset a) (np.nbytes a).
Proof.
  intros H. pose proof H as (Hsh & _ & Hc).
  destruct (flat_buffer_inv _ H) as (n & st & Hn & Hs & _).
  rewrite ensure_bytes_flat by exact Hsh.
  now apply (flat_buffer_bytes a n st).
Qed.

Lemma length_ensure_bytes (a : np.ndarray) :
  List.length (numcodecs.ensure_bytes a) = np.nbytes a.
Proof. apply length_tobytes. Qed.

(** Reinterpreting a flat buffer whose byte length the new item size
    divides succeeds and leaves memory and byte content as they are. *)
Lemma view_flat_buffer (raw : np.ndarray) (d : np.dtype) :
  flat_buffer raw ->
  np.nbytes raw mod np.itemsize d = 0 ->
  exists v, np.view raw d = Ok v /\ np.arr_dtype v = d /\ flat_buffer v
            /\ np.data v = np.data raw /\ np.offset v = np.offset raw
            /\ numcodecs.ensure_bytes v = numcodecs.ensure_bytes raw.
Proof.
  intros Hflat Hmod.
  destruct (flat_buffer_inv _ Hflat) as (n & st & Hsh & Hst & Hc).
  pose proof (itemsize_pos d) as Hd.
  pose proof (itemsize_pos (np.arr_dtype raw)) as Hold.
  assert (Hgoal : forall v, np.arr_dtype v = d -> flat_buffer v ->
            np.data v = np.data raw -> np.offset v = np.offset raw ->
            np.nbytes v = np.nbytes raw ->
            np.arr_dtype v = d /\ flat_buffer v
            /\ np.data v = np.data raw /\ np.offset v = np.offset raw
            /\ numcodecs.ensure_bytes v = numcodecs.ensure_bytes raw).
  { intros v H1 H2 H3 H4 H5. repeat split; try assumption; try apply H2.
    rewrite !flat_buffer_ensure_bytes by assumption. congruence. }
  unfold np.nbytes, np.size in Hmod. rewrite Hsh in Hmod. simpl in Hmod.
  rewrite Nat.mul_1_r in Hmod.
  unfold np.view, np.ndim, np.size. rewrite Hsh, Hst. simpl.
  destruct (Nat.eqb_spec (np.itemsize d) (np.itemsize (np.arr_dtype raw)))
    as [Heq|Hne].
  - eexists. split; [reflexivity|]. apply Hgoal; try reflexivity.
    + destruct Hflat as (? & ? & Hcc). unfold flat_buffer, np.c_contiguous in *.
      rewrite Hsh, Hst in *. simpl in *. rewrite Heq. repeat split. exact Hcc.
    + unfold np.nbytes, np.size. simpl. rewrite Hsh. simpl. now rewrite Heq.
  - assert (Hchk : negb (n =? 1) && negb (n * 1 =? 0)
                   && negb (st =? Z.of_nat (np.itemsize (np.arr_dtype raw)))%Z
                   = false).
    { destruct Hc as [ -> | [ -> | -> ] ]; [reflexivity|reflexivity|].
      rewrite Z.eqb_refl. simpl. apply andb_false_r. }
    rewrite Hchk.
    destruct (Nat.ltb_spec (np.itemsize d) (np.itemsize (np.arr_dtype raw)))
      as [Hlt|Hge].
    + pose proof (itemsize_divides _ _ Hlt) as Hdiv.
      rewrite Hdiv. simpl.
      destruct (Nat.eqb_spec (np.itemsize d) 0) as [H0|_]; [lia|]. simpl.
      eexists. split; [reflexivity|]. apply Hgoal; try reflexivity.
      * now apply (flat_buffer_intro _ (n * (np.itemsize (np.arr_dtype raw)
                                             / np.itemsize d))).
      * unfold np.nbytes, np.size. simpl. rewrite Hsh. simpl.
        apply Nat.Div0.div_exact in Hdiv. nia.
    + rewrite Hmod. simpl.
      eexists. split; [reflexivity|]. apply Hgoal; try reflexivity.
      * now apply (flat_buffer_intro _ (n * np.itemsize (np.arr_dtype raw)
                                        / np.itemsize d)).
      * unfold np.nbytes, np.size. simpl. rewrite Hsh. simpl.
        apply Nat.Div0.div_exact in Hmod. nia.
Qed.

Lemma as_array_like_flat (b : Buffer.t) : flat_buffer (Buffer.as_array_like b).
Proof. now apply (flat_buffer_intro _ (List.length b)). Qed.

Lemma ensure_bytes_as_array_like (b : Buffer.t) :
  numcodecs.ensure_bytes (Buffer.as_array_like b) = b.
Proof.
  rewrite flat_buffer_ensure_bytes by apply as_array_like_flat.
  unfold np.nbytes, np.size. simpl.
  replace (List.length b * 1 * 1) with (List.length b) by lia.
  rewrite <- (app_nil_r b) at 1. apply read_bytes_all.
Qed.

(** ** Running the stages *)

Section Runs.

Context {config : Type}.
Variable get_codec : config -> result numcodecs.Codec.
Variable array_of_bytes : list byte -> result np.ndarray.

Lemma bind_ok {A B} (m : M config A) (k : A -> M config B)
    (log log' : list (event config)) (a : A) :
  m log = (Ok a, log') -> bind m k log = k a log'.
Proof. unfold bind. now intros ->. Qed.

Lemma bind_err {A B} (m : M config A) (k : A -> M config B)
    (log log' : list (event config)) (e : exn) :
  m log = (Err e, log') -> bind m k log = (Err e, log').
Proof. unfold bind. now intros ->. Qed.

Lemma for_each_app {A S} (l1 l2 : list A) (body : A -> S -> M config S)
    (s : S) (log : list (event config)) :
  for_each (l1 ++ l2) body s log
  = bind (for_each l1 body s) (for_each l2 body) log.
Proof.
  revert s log. induction l1 as [|x l1 IH]; intros s log; simpl.
  - reflexivity.
  - unfold bind in *. destruct (body x s log) as [[a|e] log1].
    + apply IH.
    + reflexivity.
Qed.

Lemma filter_step_ok (d : direction) op (f : config)
    (x y : numcodecs.buffer_like)
    (c : numcodecs.Codec) (log : list (event config)) :
  get_codec f = Ok c -> op c x = Ok y ->
  filter_step get_codec d op f x log
  = (Ok y, (log ++ [Resolved f]) ++ [Offloaded f d x (Ok y)]).
Proof.
  intros Hc Hy. unfold filter_step, bind, numcodecs_get_codec, to_thread.
  now rewrite Hc, Hy.
Qed.

(** The filter chain round trip: the forward pass succeeds, and the
    reverse pass started from a value handed to the last filter succeeds
    and ends on a value alike the one the forward pass started from. *)
Lemma filter_chain_roundtrip
    (alike : numcodecs.buffer_like -> numcodecs.buffer_like -> Prop)
    (handed : numcodecs.buffer_like -> Prop)
    (filters : list config) (x : numcodecs.buffer_like) :
  filters_inverse get_codec alike handed filters x ->
  forall log, exists e log',
    for_each filters (filter_step get_codec Forward numcodecs.encode) x log
    = (Ok e, log')
    /\ (filters = [] -> e = x)
    /\ forall v log2,
        (filters <> [] -> handed v) ->
        exists y log3,
          for_each (rev filters) (filter_step get_codec Inverse numcodecs.decode) v log2
          = (Ok y, log3)
          /\ ((filters = [] /\ y = v) \/ (filters <> [] /\ alike y x)).
Proof.
  revert x. induction filters as [|f filters IH]; intros x Hinv log.
  - exists x, log. split; [reflexivity|]. split; [reflexivity|].
    intros v log2 _. exists v, log2. split; [reflexivity|]. now left.
  - destruct Hinv as (c & e1 & Hget & Henc & Hdec & Hrest).
    destruct (IH e1 Hrest ((log ++ [Resolved f])
                           ++ [Offloaded f Forward x (Ok e1)]))
      as (e & log' & Hrun & Hnil & Hback).
    exists e, log'. split; [|split; [discriminate|]].
    + simpl.
      rewrite (bind_ok _ _ _ _ _
                 (filter_step_ok Forward numcodecs.encode f x e1 c log
                                 Hget Henc)).
      exact Hrun.
    + intros v log2 Hv.
      assert (Hhanded : handed v) by (apply Hv; discriminate).
      destruct (Hback v log2 (fun _ => Hhanded)) as (y1 & log3 & Hrun1 & Hy1).
      assert (Hy1' : match filters with
                     | [] => handed y1
                     | _ :: _ => alike y1 e1
                     end).
      { destruct Hy1 as [[-> ->]|[Hne Hsim]]; [exact Hhanded|].
        destruct filters; [contradiction|exact Hsim]. }
      destruct (Hdec y1 Hy1') as (y & Hy & Hsim).
      exists y. eexists. split.
      * simpl. rewrite for_each_app. erewrite bind_ok by exact Hrun1.
        simpl.
        rewrite (bind_ok _ _ _ _ _
                   (filter_step_ok Inverse numcodecs.decode f y1 y c log3
                                   Hget Hy)).
        reflexivity.
      * right. split; [discriminate|exact Hsim].
Qed.

(** The value a filter loop ends on is that of the composed
    operations. *)
Lemma for_each_composed (d : direction) (fs : list config) :
  forall (x : numcodecs.buffer_like) (log : list (event config)),
    fst (for_each fs (filter_step get_codec d (operation d)) x log)
    = composed get_codec d fs x.
Proof.
  induction fs as [|f fs IH]; intros x log; [reflexivity|].
  simpl. unfold bind at 1.
  unfold filter_step, bind, numcodecs_get_codec, to_thread.
  destruct (get_codec f) as [c|e]; [|reflexivity].
  destruct (operation d c x) as [y|e]; [apply IH|reflexivity].
Qed.

End Runs.

Section RoundTrip.

Context {config : Type}.
Variable get_codec : config -> result numcodecs.Codec.
Variable array_of_bytes : list byte -> result np.ndarray.

Lemma flat_buffer_ndim (a : np.ndarray) : flat_buffer a -> np.ndim a = 1.
Proof. now intros (H & _). Qed.

(** The dtype reconciliation of the compressor stage, on a flat buffer
    whose byte length suits the requested element type. *)
Lemma reconcile_dtype_flat_buffer (raw : np.ndarray) (spec : ArraySpec.t)
    (log : list (event config)) :
  flat_buffer raw ->
  np.nbytes raw mod np.itemsize (ArraySpec.dtype spec) = 0 ->
  exists v,
    (if negb (String.eqb (np.str (np.arr_dtype raw))
                         (np.str (ArraySpec.dtype spec)))
     then lift (np.view raw (ArraySpec.dtype spec))
     else ret raw) log = (Ok v, log)
    /\ np.arr_dtype v = ArraySpec.dtype spec /\ flat_buffer v
    /\ numcodecs.ensure_bytes v = numcodecs.ensure_bytes raw.
Proof.
  intros Hflat Hmod.
  destruct (String.eqb (np.str (np.arr_dtype raw))
                       (np.str (ArraySpec.dtype spec))) eqn:Heq; simpl.
  - exists raw. apply str_eqb_eq in Heq.
    split; [reflexivity|]. split; [exact Heq|]. split; [exact Hflat|].
    reflexivity.
  - destruct (view_flat_buffer raw (ArraySpec.dtype spec) Hflat Hmod)
      as (v & Hv & Hd & Hf & _ & _ & Hb).
    exists v. unfold lift. rewrite Hv.
    split; [reflexivity|]. split; [exact Hd|]. split; [exact Hf|exact Hb].
Qed.

Lemma ensure_bytes_ravel (a : np.ndarray) (o : np.order) :
  numcodecs.ensure_bytes (np.ravel a o) = np.tobytes a o.
Proof.
  rewrite ensure_bytes_flat by reflexivity.
  unfold np.tobytes at 1. now rewrite elements_ravel.
Qed.

Lemma nbytes_ravel (a : np.ndarray) (o : np.order) :
  np.nbytes (np.ravel a o) = np.nbytes a.
Proof. unfold np.nbytes, np.size. simpl. now rewrite Nat.mul_1_r. Qed.

Lemma compressor_decode_unfold (compressor : option config)
    (b : Buffer.t) (spec : ArraySpec.t) :
  V2Compressor.decode_single get_codec compressor (Some b) spec
  = (chunk_numpy_array <- decompressed get_codec compressor b ;;
     chunk_numpy_array <-
       (if negb (String.eqb (np.str (np.arr_dtype chunk_numpy_array))
                            (np.str (ArraySpec.dtype spec)))
        then lift (np.view chunk_numpy_array (ArraySpec.dtype spec))
        else ret chunk_numpy_array) ;;
     ret (Some (NDBuffer.from_numpy_array chunk_numpy_array))).
Proof. reflexivity. Qed.

Lemma filters_decode_unfold (filters : option (list config))
    (x : NDBuffer.t) (spec : ArraySpec.t) :
  V2Filters.decode_single get_codec filters x spec
  = (chunk_numpy_array <- unfiltered get_codec filters x ;;
     match chunk_numpy_array with
     | numcodecs.Bytes _ => raise AttributeError
     | numcodecs.Array chunk_numpy_array =>
         chunk_numpy_array <-
           (if negb (shape_eqb (np.shape chunk_numpy_array)
                               (ArraySpec.shape spec))
            then lift (np.reshape chunk_numpy_array (ArraySpec.shape spec)
                                  (ArraySpec.order spec))
            else ret chunk_numpy_array) ;;
         ret (NDBuffer.from_numpy_array chunk_numpy_array)
     end).
Proof. destruct filters; reflexivity. Qed.

(** [V2Filters.decode_single] is the inverse loop followed by the shape
    reconciliation; a failure of the loop is the failure of the call. *)
Lemma filters_decode_run (filters : option (list config))
    (x : NDBuffer.t) (spec : ArraySpec.t) (log log' : list (event config))
    (r : result numcodecs.buffer_like) :
  unfiltered get_codec filters x log = (r, log') ->
  V2Filters.decode_single get_codec filters x spec log
  = (match r with
     | Ok y => reconciled y spec
     | Err e => Err e
     end, log').
Proof.
  intros Hun. rewrite filters_decode_unfold. unfold bind at 1. rewrite Hun.
  destruct r as [[b|a]|e]; try reflexivity.
  unfold reconciled, bind, lift, ret, NDBuffer.from_numpy_array.
  destruct (shape_eqb (np.shape a) (ArraySpec.shape spec)); simpl;
    [reflexivity|].
  now destruct (np.reshape a _ _).
Qed.

Lemma filters_encode_unfold (filters : list config)
    (x : NDBuffer.t) (spec : ArraySpec.t) :
  V2Filters.encode_single get_codec array_of_bytes (Some filters) x spec
  = (chunk_numpy_array <- filtered get_codec (Some filters) x spec ;;
     match chunk_numpy_array with
     | numcodecs.Array chunk_numpy_array =>
         ret (NDBuffer.from_numpy_array chunk_numpy_array)
     | numcodecs.Bytes chunk_bytes =>
         chunk_numpy_array <- lift (array_of_bytes chunk_bytes) ;;
         ret (NDBuffer.from_numpy_array chunk_numpy_array)
     end).
Proof. reflexivity. Qed.

(** [V2Filters.encode_single] is the forward loop followed by the
    wrapping of its result. *)
Lemma filters_encode_run (filters : option (list config))
    (x : NDBuffer.t) (spec : ArraySpec.t) (log log' : list (event config))
    (r : result numcodecs.buffer_like) :
  filtered get_codec filters x spec log = (r, log') ->
  V2Filters.encode_single get_codec array_of_bytes filters x spec log
  = (match r with
     | Ok y => wrapped array_of_bytes y
     | Err e => Err e
     end, log').
Proof.
  intros Hrun. destruct filters as [fs|].
  - rewrite filters_encode_unfold. unfold bind at 1. rewrite Hrun.
    destruct r as [[b|a]|e]; try reflexivity.
    unfold wrapped, bind, lift, ret. now destruct (array_of_bytes b).
  - unfold filtered, raise in Hrun. injection Hrun as <- <-. reflexivity.
Qed.

(** The compressor stage on stored bytes that decompress to a flat
    buffer of a suitable byte length. *)
Lemma compressor_decode_flat_buffer (compressor : option config)
    (b : Buffer.t) (spec : ArraySpec.t) (raw : np.ndarray)
    (log log2 : list (event config)) :
  decompressed get_codec compressor b log = (Ok raw, log2) ->
  flat_buffer raw ->
  np.nbytes raw mod np.itemsize (ArraySpec.dtype spec) = 0 ->
  exists v,
    V2Compressor.decode_single get_codec compressor (Some b) spec log
    = (Ok (Some v), log2)
    /\ np.arr_dtype v = ArraySpec.dtype spec /\ flat_buffer v
    /\ numcodecs.ensure_bytes v = numcodecs.ensure_bytes raw.
Proof.
  intros Hraw Hflat Hmod.
  destruct (reconcile_dtype_flat_buffer raw spec log2 Hflat Hmod)
    as (v & Hv & Hrest).
  exists v. split; [|exact Hrest].
  rewrite compressor_decode_unfold.
  rewrite (bind_ok _ _ _ _ _ Hraw). now rewrite (bind_ok _ _ _ _ _ Hv).
Qed.

Lemma compressor_decode_flat (compressor : option config) (b : Buffer.t)
    (spec : ArraySpec.t) (raw : np.ndarray) (log log2 : list (event config)) :
  decompressed get_codec compressor b log = (Ok raw, log2) ->
  flat_buffer raw ->
  np.nbytes raw mod np.itemsize (ArraySpec.dtype spec) = 0 ->
  exists v,
    V2Compressor.decode_single get_codec compressor (Some b) spec log
    = (Ok (Some v), log2)
    /\ np.arr_dtype v = ArraySpec.dtype spec /\ np.ndim v = 1
    /\ numcodecs.ensure_bytes v = numcodecs.ensure_bytes raw.
Proof.
  intros Hraw Hflat Hmod.
  destruct (compressor_decode_flat_buffer compressor b spec raw log log2
              Hraw Hflat Hmod) as (v & Hv & Hd & Hf & Hb).
  exists v. repeat split; try assumption. now apply flat_buffer_ndim.
Qed.

(** The shape reconciliation of the filter stage, on an array equivalent
    to the raveled chunk. *)
Lemma reconciled_raveled (y chunk : np.ndarray) (spec : ArraySpec.t) :
  np.shape chunk = ArraySpec.shape spec ->
  np.equiv y (np.ravel chunk (ArraySpec.order spec)) ->
  exists z, reconciled y spec = Ok z /\ np.equiv z chunk.
Proof.
  intros Hsh Hy. unfold reconciled.
  destruct (shape_eqb (np.shape y) (ArraySpec.shape spec)) eqn:Heq.
  - exists y. split; [reflexivity|].
    apply shape_eqb_eq in Heq.
    apply (equiv_trans _ _ _ Hy). apply ravel_flat_equiv.
    unfold np.ndim. rewrite Hsh, <- Heq.
    destruct Hy as (_ & -> & _). reflexivity.
  - rewrite reshape_ok.
    + eexists. split; [reflexivity|]. rewrite <- Hsh.
      now apply reshape_ravel_equiv.
    + destruct Hy as (_ & Hs & _). unfold np.size at 1. rewrite Hs.
      rewrite <- Hsh. simpl. unfold np.size. apply Nat.mul_1_r.
Qed.

(** The array lying over what a transform returned holds its bytes. *)
Lemma ensure_bytes_ensure_ndarray (r : numcodecs.buffer_like) :
  numcodecs.ensure_bytes (numcodecs.ensure_ndarray r)
  = numcodecs.ensure_bytes r.
Proof.
  destruct r as [b|a]; [|reflexivity].
  change (numcodecs.ensure_ndarray (numcodecs.Bytes b))
    with (np.fresh np.uint8 [List.length b] np.C b).
  rewrite flat_buffer_ensure_bytes
    by (now apply (flat_buffer_intro _ (List.length b))).
  unfold np.nbytes, np.size. simpl.
  replace (List.length b * 1 * 1) with (List.length b) by lia.
  rewrite <- (app_nil_r b) at 1. apply read_bytes_all.
Qed.

End RoundTrip.

(** ** Contiguity of freshly laid out arrays *)

Lemma contig_from_app (sd : Z) (d1 d2 : list nat) (s1 s2 : list Z) :
  List.length d1 = List.length s1 ->
  np.contig_from sd (d1 ++ d2) (s1 ++ s2)
  = np.contig_from sd d1 s1
    && np.contig_from (sd * Z.of_nat (np.prod d1)) d2 s2.
Proof.
  revert sd s1. induction d1 as [|d d1 IH]; intros sd [|s s1] H;
    try discriminate.
  - simpl. now rewrite Z.mul_1_r.
  - simpl in H. simpl np.contig_from. simpl app.
    simpl np.contig_from.
    destruct (Nat.eqb_spec d 1) as [->|Hd].
    + rewrite IH by lia. do 3 f_equal. change (np.prod (1 :: d1)) with (1 * np.prod d1). lia.
    + rewrite IH by lia. rewrite <- andb_assoc. do 3 f_equal.
      change (np.prod (d :: d1)) with (d * np.prod d1). lia.
Qed.

Lemma contig_strides_C (sh : list nat) (s : nat) :
  np.contig_from (Z.of_nat s) (rev sh) (rev (np.strides_C sh s)) = true.
Proof.
  induction sh as [|n sh IH]; [reflexivity|].
  simpl. rewrite contig_from_app
    by (now rewrite !length_rev, length_strides_C).
  rewrite IH. simpl. destruct (n =? 1); [reflexivity|].
  rewrite andb_true_r, prod_rev. apply Z.eqb_eq. lia.
Qed.

Lemma c_contiguous_fresh_C (d : np.dtype) (sh : list nat) (mem : list byte) :
  np.c_contiguous (np.fresh d sh np.C mem) = true.
Proof.
  unfold np.c_contiguous. simpl. rewrite contig_strides_C.
  apply orb_true_r.
Qed.

Lemma f_contiguous_fresh_F (d : np.dtype) (sh : list nat) (mem : list byte) :
  np.f_contiguous (np.fresh d sh np.F mem) = true.
Proof.
  unfold np.f_contiguous. simpl. unfold np.strides_F.
  rewrite <- (rev_involutive sh) at 2. rewrite contig_strides_C.
  apply orb_true_r.
Qed.

(** ** The contiguous copy *)

Lemma copy_A_equiv (a : np.ndarray) : np.equiv (np.copy_A a) a.
Proof.
  repeat split. unfold np.copy_A.
  apply (elements_order_irrelevant (np.any_order a)); [reflexivity|].
  now apply elements_fresh_tobytes.
Qed.

Lemma copy_A_noncontiguous (a : np.ndarray) :
  np.f_contiguous a = false ->
  np.copy_A a = np.fresh (np.arr_dtype a) (np.shape a) np.C (np.tobytes a np.C).
Proof. unfold np.copy_A, np.any_order. now intros ->. Qed.

Lemma ensure_bytes_noncontiguous (a : np.ndarray) :
  np.f_contiguous a = false ->
  numcodecs.ensure_bytes a = np.tobytes a np.C.
Proof. unfold numcodecs.ensure_bytes, np.any_order. now intros ->. Qed.

Lemma ensure_bytes_c_contiguous (a : np.ndarray) :
  np.c_contiguous a = true ->
  numcodecs.ensure_bytes a = np.tobytes a np.C.
Proof.
  unfold numcodecs.ensure_bytes, np.any_order. intros ->.
  now rewrite andb_false_r.
Qed.

Lemma tobytes_fresh (o : np.order) (a : np.ndarray) (sh : list nat) :
  np.prod sh = np.size a ->
  np.tobytes (np.fresh (np.arr_dtype a) sh o (np.tobytes a o)) o
  = np.tobytes a o.
Proof.
  intros H. unfold np.tobytes at 1. now rewrite elements_fresh_tobytes.
Qed.

(** ** Reinterpretation leaves the byte image alone *)

Lemma concat_flat_map {A B} (f : A -> list (list B)) (l : list A) :
  concat (flat_map f l) = concat (map (fun x => concat (f x)) l).
Proof.
  induction l as [|x l IH]; simpl; [reflexivity|].
  now rewrite concat_app, IH.
Qed.

Lemma tobytes_image_gen (mem : list byte) (s : nat) (sh : list nat)
    (st : list Z) (off : Z) :
  List.length st = List.length sh ->
  concat (map (fun idx => np.read_bytes mem (off + np.dot idx st) s)
              (np.indices_C sh))
  = image mem s sh st off.
Proof.
  revert st off. induction sh as [|n sh IH]; intros [|t st] off H;
    try discriminate.
  - simpl. rewrite app_nil_r. f_equal. lia.
  - simpl. rewrite map_flat_map, concat_flat_map.
    f_equal. apply map_ext. intros i. rewrite map_map.
    rewrite <- IH by (simpl in H; lia).
    f_equal. apply map_ext. intros idx. f_equal. simpl. lia.
Qed.

Lemma tobytes_image (a : np.ndarray) :
  List.length (np.strides a) = np.ndim a ->
  np.tobytes a np.C
  = image (np.data a) (np.itemsize (np.arr_dtype a)) (np.shape a)
          (np.strides a) (np.offset a).
Proof. intros H. now apply tobytes_image_gen. Qed.

Lemma image_empty (mem : list byte) (s : nat) (sh : list nat) (st : list Z)
    (off : Z) :
  List.length st = List.length sh -> np.prod sh = 0 ->
  image mem s sh st off = [].
Proof.
  revert st off. induction sh as [|n sh IH]; intros [|t st] off H H0;
    try discriminate.
  simpl in H0. apply Nat.eq_mul_0 in H0. simpl.
  destruct H0 as [->|H0]; [reflexivity|].
  induction (seq 0 n) as [|i l IHl]; [reflexivity|].
  simpl. rewrite IH by (simpl in H; lia || assumption). exact IHl.
Qed.

(** Resizing the last axis of a window whose rows are contiguous. *)
Lemma image_resize (mem : list byte) (old new n n' : nat) (t : Z)
    (pre : list nat) (spre : list Z) (off : Z) :
  List.length spre = List.length pre ->
  n' * new = n * old ->
  (n = 0 \/ n = 1 \/ t = Z.of_nat old \/ np.prod pre = 0) ->
  image mem new (pre ++ [n']) (spre ++ [Z.of_nat new]) off
  = image mem old (pre ++ [n]) (spre ++ [t]) off.
Proof.
  intros Hlen Hsz. revert spre off Hlen.
  induction pre as [|m pre IH]; intros [|u spre] off Hlen Hrow;
    try discriminate.
  - simpl. rewrite row_bytes, Hsz.
    destruct Hrow as [->|[->|[->|H]]].
    + reflexivity.
    + simpl. rewrite app_nil_r, Nat.add_0_r. f_equal. lia.
    + now rewrite row_bytes.
    + discriminate.
  - simpl in Hlen. simpl.
    destruct (Nat.eq_dec m 0) as [->|Hm]; [reflexivity|].
    f_equal. apply map_ext. intros i. apply IH; [lia|].
    destruct Hrow as [H|[H|[H|H]]]; try tauto.
    simpl in H. apply Nat.eq_mul_0 in H. destruct H; [contradiction|tauto].
Qed.

Lemma nbytes_eq (a : np.ndarray) :
  np.nbytes a = np.prod (np.shape a) * np.itemsize (np.arr_dtype a).
Proof. reflexivity. Qed.

(** A successful [view] relabels: same memory, requested element type,
    same byte count, and, for a well-formed array, same byte image. *)
Lemma view_relabels (a v : np.ndarray) (d : np.dtype) :
  np.view a d = Ok v ->
  np.arr_dtype v = d /\ np.data v = np.data a /\ np.offset v = np.offset a
  /\ np.nbytes v = np.nbytes a
  /\ (List.length (np.strides a) = np.ndim a ->
      np.tobytes v np.C = np.tobytes a np.C).
Proof.
  unfold np.view.
  pose proof (itemsize_pos d) as Hd.
  destruct (Nat.eqb_spec (np.itemsize d) (np.itemsize (np.arr_dtype a)))
    as [Heq|Hne].
  { intros [= <-]. simpl. repeat split.
    - rewrite !nbytes_eq. simpl. now rewrite Heq.
    - intros _. unfold np.tobytes, np.elements, np.item. simpl.
      now rewrite Heq. }
  destruct (Nat.eqb_spec (np.ndim a) 0) as [|Hnd]; [discriminate|].
  assert (Hsh : np.shape a = removelast (np.shape a) ++ [last (np.shape a) 0]).
  { apply app_removelast_last. unfold np.ndim in Hnd.
    destruct (np.shape a); [contradiction|discriminate]. }
  set (pre := removelast (np.shape a)) in *.
  set (n := last (np.shape a) 0) in *.
  destruct (negb (n =? 1) && negb (np.size a =? 0)
            && negb (last (np.strides a) 0
                     =? Z.of_nat (np.itemsize (np.arr_dtype a)))%Z)
    eqn:Hchk; [discriminate|].
  assert (Hrow : n = 0 \/ n = 1
                 \/ last (np.strides a) 0%Z
                    = Z.of_nat (np.itemsize (np.arr_dtype a))
                 \/ np.prod pre = 0).
  { apply andb_false_iff in Hchk. destruct Hchk as [Hchk|Hchk].
    - apply andb_false_iff in Hchk. destruct Hchk as [Hchk|Hchk].
      + apply negb_false_iff, Nat.eqb_eq in Hchk. tauto.
      + apply negb_false_iff, Nat.eqb_eq in Hchk.
        unfold np.size in Hchk. rewrite Hsh, prod_app in Hchk. simpl in Hchk.
        apply Nat.eq_mul_0 in Hchk. lia.
    - apply negb_false_iff, Z.eqb_eq in Hchk. tauto. }
  assert (Hfin : forall n',
            n' * np.itemsize d = n * np.itemsize (np.arr_dtype a) ->
            forall v',
            v' = {| np.arr_dtype := d; np.shape := pre ++ [n'];
                    np.strides := removelast (np.strides a)
                                  ++ [Z.of_nat (np.itemsize d)];
                    np.offset := np.offset a; np.data := np.data a |} ->
            np.arr_dtype v' = d /\ np.data v' = np.data a
            /\ np.offset v' = np.offset a /\ np.nbytes v' = np.nbytes a
            /\ (List.length (np.strides a) = np.ndim a ->
                np.tobytes v' np.C = np.tobytes a np.C)).
  { intros n' Hn' v' ->. simpl. repeat split.
    - rewrite !nbytes_eq. simpl. rewrite Hsh, !prod_app. simpl. nia.
    - intros Hwf.
      assert (Hst : np.strides a
                    = removelast (np.strides a) ++ [last (np.strides a) 0%Z]).
      { apply app_removelast_last. rewrite <- length_zero_iff_nil. lia. }
      assert (Hl : List.length (removelast (np.strides a)) = List.length pre).
      { unfold np.ndim in Hwf. rewrite Hsh, Hst in Hwf.
        rewrite !length_app in Hwf. simpl in Hwf. lia. }
      rewrite (tobytes_image a Hwf). rewrite tobytes_image.
      + simpl. clearbody pre n.
        remember (removelast (np.strides a)) as spre.
        remember (last (np.strides a) 0%Z) as t.
        rewrite Hsh, Hst. now apply image_resize.
      + unfold np.ndim. simpl. rewrite !length_app. simpl. lia. }
  destruct (np.itemsize d <? np.itemsize (np.arr_dtype a)).
  - destruct (Nat.eqb_spec (np.itemsize d) 0) as [|_]; [discriminate|].
    simpl.
    destruct (Nat.eqb_spec (np.itemsize (np.arr_dtype a) mod np.itemsize d) 0)
      as [Hm|]; [|discriminate].
    simpl. intros [= <-]. eapply Hfin; [|reflexivity].
    apply Nat.Div0.div_exact in Hm. nia.
  - destruct (Nat.eqb_spec
                ((n * np.itemsize (np.arr_dtype a)) mod np.itemsize d) 0)
      as [Hm|]; [|discriminate].
    simpl. intros [= <-]. eapply Hfin; [|reflexivity].
    apply Nat.Div0.div_exact in Hm. nia.
Qed.

(** Every failure of [view] is a [ValueError]. *)
Lemma view_fails_with_ValueError (a : np.ndarray) (d : np.dtype) (e : exn) :
  np.view a d = Err e -> e = ValueError.
Proof.
  unfold np.view.
  repeat match goal with
         | |- context [if ?c then _ else _] => destruct c
         end; congruence.
Qed.

(** A byte count the new item size does not divide is refused. *)
Lemma view_incompatible (a : np.ndarray) (d : np.dtype) :
  np.nbytes a mod np.itemsize d <> 0 -> np.view a d = Err ValueError.
Proof.
  intros Hmod. destruct (np.view a d) as [v|e] eqn:Hv.
  - exfalso. apply Hmod.
    destruct (view_relabels a v d Hv) as (Hd & _ & _ & Hn & _).
    rewrite <- Hn, nbytes_eq, Hd. apply Nat.Div0.mod_mul.
  - f_equal. now apply (view_fails_with_ValueError a d).
Qed.

(** ** What the log of a run shows *)

Section Logs.

Context {config : Type}.
Variable get_codec : config -> result numcodecs.Codec.
Variable array_of_bytes : list byte -> result np.ndarray.

Lemma offloads_app (l1 l2 : list (event config)) :
  offloads (l1 ++ l2) = offloads l1 ++ offloads l2.
Proof. apply flat_map_app. Qed.

Lemma is_prefix_nil {A} (l : list A) : is_prefix [] l.
Proof. now exists l. Qed.

Lemma is_prefix_cons {A} (x : A) (l1 l2 : list A) :
  is_prefix l1 l2 -> is_prefix (x :: l1) (x :: l2).
Proof. intros (rest & ->). now exists rest. Qed.

Lemma is_prefix_refl {A} (l : list A) : is_prefix l l.
Proof. exists []. now rewrite app_nil_r. Qed.

Lemma genuine_app (l1 l2 : list (event config)) :
  genuine get_codec l1 -> genuine get_codec l2 ->
  genuine get_codec (l1 ++ l2).
Proof.
  intros H1 H2. induction l1 as [|[cfg|cfg d x r] l1 IH]; simpl in *.
  - exact H2.
  - now apply IH.
  - destruct H1 as (Hc & H1). split; [exact Hc | now apply IH].
Qed.

(** A filter loop calls the operations of its filters in the order of
    the list, each on the result of the one before, and each call is a
    call of the operation, in the direction of the loop, of the transform
    the registry resolves the filter to. *)
Lemma filter_loop_log (d : direction) (fs : list config) :
  forall (x : numcodecs.buffer_like) (log : list (event config))
         (r : result numcodecs.buffer_like) (log' : list (event config)),
    for_each fs (filter_step get_codec d (operation d)) x log = (r, log') ->
    exists evs,
      log' = log ++ evs
      /\ is_prefix (offloads evs) (map (fun f => (f, d)) fs)
      /\ (is_ok r = true -> offloads evs = map (fun f => (f, d)) fs)
      /\ chained x evs
      /\ genuine get_codec evs.
Proof.
  induction fs as [|f fs IH]; intros x log r log' Hrun.
  - injection Hrun as <- <-. exists []. rewrite app_nil_r.
    repeat split. apply is_prefix_refl.
  - simpl in Hrun. unfold bind at 1 in Hrun.
    unfold filter_step, bind, numcodecs_get_codec, to_thread in Hrun.
    destruct (get_codec f) as [c|e] eqn:Hget.
    + destruct (operation d c x) as [y|e] eqn:Hop.
      * destruct (IH _ _ _ _ Hrun) as (evs & -> & Hpre & Hall & Hch & Hgen).
        exists ([Resolved f; Offloaded f d x (Ok y)] ++ evs).
        rewrite <- !app_assoc. split; [reflexivity|].
        simpl. repeat split.
        -- now apply is_prefix_cons.
        -- intros Hr. now rewrite (Hall Hr).
        -- exact Hch.
        -- exists c. now rewrite Hop.
        -- exact Hgen.
      * injection Hrun as <- <-.
        exists [Resolved f; Offloaded f d x (Err e)].
        rewrite <- app_assoc. repeat split; try discriminate.
        -- simpl. apply is_prefix_cons, is_prefix_nil.
        -- exists c. now rewrite Hop.
    + injection Hrun as <- <-. exists [Resolved f].
      repeat split; try discriminate. apply is_prefix_nil.
Qed.

Lemma compressor_encode_log (compressor : option config) (x : NDBuffer.t)
    (spec : ArraySpec.t) (log log' : list (event config)) (b : Buffer.t) :
  V2Compressor.encode_single get_codec compressor x spec log = (Ok b, log') ->
  exists evs, log' = log ++ evs
              /\ offloads evs = compressor_call compressor Forward
              /\ genuine get_codec evs.
Proof.
  unfold V2Compressor.encode_single, bind, numcodecs_get_codec, to_thread, ret.
  destruct compressor as [cfg|].
  - destruct (get_codec cfg) as [c|e] eqn:Hget; [|discriminate].
    match goal with |- context [numcodecs.encode c ?a] =>
      destruct (numcodecs.encode c a) as [y|e] eqn:Hy end; [|discriminate].
    intros [= <- <-]. eexists. rewrite <- app_assoc.
    split; [reflexivity|]. split; [reflexivity|].
    simpl. split; [|exact I]. exists c. now split.
  - intros [= <- <-]. exists []. now rewrite app_nil_r.
Qed.

Lemma decompressed_log (compressor : option config) (b : Buffer.t)
    (log log' : list (event config)) (raw : np.ndarray) :
  decompressed get_codec compressor b log = (Ok raw, log') ->
  exists evs, log' = log ++ evs
              /\ offloads evs = compressor_call compressor Inverse
              /\ genuine get_codec evs.
Proof.
  unfold decompressed, bind, numcodecs_get_codec, to_thread, ret.
  destruct compressor as [cfg|].
  - destruct (get_codec cfg) as [c|e] eqn:Hget; [|discriminate].
    destruct (numcodecs.decode c (Buffer.as_array_like b)) as [y|e] eqn:Hy;
      [|discriminate].
    intros [= <- <-]. eexists. rewrite <- app_assoc.
    split; [reflexivity|]. split; [reflexivity|].
    simpl. split; [|exact I]. exists c. now split.
  - intros [= <- <-]. exists []. now rewrite app_nil_r.
Qed.

(** Taking a run of a [bind] apart. *)
Lemma bind_inv {A B} (m : M config A) (k : A -> M config B)
    (log log' : list (event config)) (r : result B) :
  bind m k log = (r, log') ->
  (exists a log1, m log = (Ok a, log1) /\ k a log1 = (r, log'))
  \/ (exists e, m log = (Err e, log') /\ r = Err e).
Proof.
  unfold bind. destruct (m log) as [[a|e] log1].
  - intros H. left. now exists a, log1.
  - intros [= <- <-]. right. now exists e.
Qed.

Lemma reconcile_keeps_log {A} (c : bool) (r1 : result A) (a : A)
    (log log' : list (event config)) (r : result A) :
  (if c then lift r1 else ret a) log = (r, log') -> log' = log.
Proof. destruct c; unfold lift, ret; now intros [= _ <-]. Qed.

End Logs.

(** ** The claims *)

Section Claims.

Context {config : Type}.
Variable get_codec : config -> result numcodecs.Codec.
Variable array_of_bytes : list byte -> result np.ndarray.

(** C1 (as amended).  Take a chunk conforming to its specification that
    the filter chain encodes to [e], the byte length of [e] being a
    multiple of the item size of [spec.dtype] (so that the compressor
    stage can relabel it), and transforms that are inverse to one
    another, in any sense [alike] that tells apart values of different
    element type, shape or elements: the compressor's inverse returns a
    flat buffer holding the bytes of [e]; the inverse of the last filter
    returns a value alike the filter's input from any flat array of type
    [spec.dtype] holding the bytes of [e], which is what the compressor
    stage hands over; the inverse of every other filter returns a value
    alike the filter's input from any value alike the filter's output.
    Then the full pipeline encodes, and decodes what it encoded to an
    array equivalent to the chunk: same element values, shape and
    dtype. *)
Theorem roundtrip
    (alike : numcodecs.buffer_like -> numcodecs.buffer_like -> Prop)
    (filters : list config) (compressor : option config)
    (chunk : np.ndarray) (spec : ArraySpec.t) (e : NDBuffer.t) :
  conforms chunk spec ->
  filtered_to get_codec array_of_bytes filters chunk spec e ->
  np.nbytes e mod np.itemsize (ArraySpec.dtype spec) = 0 ->
  (forall y x, alike y x -> similar y x) ->
  filters_inverse get_codec alike (relabelled spec e) filters
    (np.ravel chunk (ArraySpec.order spec)) ->
  compressor_invertible get_codec compressor e ->
  exists b log,
    pipeline_encode get_codec array_of_bytes (Some filters) compressor chunk spec []
    = (Ok b, log)
    /\ exists z log',
        pipeline_decode get_codec (Some filters) compressor (Some b) spec []
        = (Ok (Some z), log')
        /\ np.equiv z chunk.
Proof.
  intros (Hsh & Hdt) (log1 & Henc) Hmod Halike Hinv Hc.
  destruct (filter_chain_roundtrip get_codec _ _ filters _ Hinv [])
    as (xn & log0 & Hrun & Hnil & Hback).
  assert (Hwrap : wrapped array_of_bytes xn = Ok e).
  { rewrite (filters_encode_run get_codec array_of_bytes (Some filters) chunk
               spec [] log0 (Ok xn) Hrun) in Henc.
    now injection Henc as -> _. }
  (* the decode direction, from any flat buffer holding the bytes of [e] *)
  assert (Hdecode : forall b raw log2,
            decompressed get_codec compressor b [] = (Ok raw, log2) ->
            flat_buffer raw ->
            numcodecs.ensure_bytes raw = numcodecs.ensure_bytes e ->
            exists z log',
              pipeline_decode get_codec (Some filters) compressor (Some b)
                              spec [] = (Ok (Some z), log')
              /\ np.equiv z chunk).
  { intros b raw log2 Hraw Hflat Hbytes.
    assert (Hm : np.nbytes raw mod np.itemsize (ArraySpec.dtype spec) = 0).
    { now rewrite <- length_ensure_bytes, Hbytes, length_ensure_bytes. }
    destruct (compressor_decode_flat_buffer get_codec compressor b spec raw
                [] log2 Hraw Hflat Hm) as (v & Hv & Hvd & Hvflat & Hvbytes).
    rewrite Hbytes in Hvbytes.
    assert (Hhanded : relabelled spec e v) by (now exists v).
    destruct (Hback v log2 (fun _ => Hhanded)) as (y & log3 & Hdec & Hy).
    assert (Hyx : exists y0, y = numcodecs.Array y0
                  /\ np.equiv y0 (np.ravel chunk (ArraySpec.order spec))).
    { destruct Hy as [[Hf ->]|[_ Hy]].
      - exists v. split; [reflexivity|].
        rewrite (Hnil Hf) in Hwrap. injection Hwrap as <-.
        apply flat_same_bytes_equiv; try assumption; try reflexivity.
        + now apply flat_buffer_ndim.
        + simpl. congruence.
      - apply Halike in Hy.
        destruct y as [bs|y0]; [contradiction|]. now exists y0. }
    destruct Hyx as (y0 & -> & Hyx).
    destruct (reconciled_raveled y0 chunk spec Hsh Hyx) as (z & Hz & Hzc).
    exists z, log3. split; [|exact Hzc].
    unfold pipeline_decode. rewrite (bind_ok _ _ _ _ _ Hv).
    unfold bind.
    rewrite (filters_decode_run get_codec (Some filters) v spec log2 log3
               (Ok (numcodecs.Array y0)) Hdec).
    now rewrite Hz. }
  unfold pipeline_encode. rewrite (bind_ok _ _ _ _ _ Henc).
  destruct compressor as [cfg|].
  - destruct Hc as (c & enc & raw & Hget & Hce & Hcd & Hflat & Hbytes).
    unfold Buffer.from_bytes in Hcd.
    exists (numcodecs.ensure_bytes enc). eexists. split.
    { unfold V2Compressor.encode_single, NDBuffer.as_numpy_array, bind,
        numcodecs_get_codec, to_thread, ret, Buffer.from_bytes.
      rewrite Hget, Hce. reflexivity. }
    apply (Hdecode _ (numcodecs.ensure_ndarray raw)
             ([Resolved cfg]
              ++ [Offloaded cfg Inverse
                    (Buffer.as_array_like (numcodecs.ensure_bytes enc))
                    (Ok raw)])).
    + unfold decompressed, bind, numcodecs_get_codec, to_thread, ret.
      rewrite Hget, Hcd. reflexivity.
    + exact Hflat.
    + now rewrite ensure_bytes_ensure_ndarray.
  - exists (numcodecs.ensure_bytes e), log1. split; [reflexivity|].
    apply (Hdecode _ (Buffer.as_array_like (numcodecs.ensure_bytes e)) []).
    + reflexivity.
    + apply as_array_like_flat.
    + apply ensure_bytes_as_array_like.
Qed.

(** C2.  [V2Filters.encode_single] offloads the forward operations
    ([encode]) of the transforms the filters resolve to, in list order,
    each on the result of the one before, starting from the raveled
    chunk, and returns what their composition yields;
    [V2Filters.decode_single] offloads the inverse operations ([decode])
    in the reversed order, starting from its input, and reconciles the
    shape of what their composition yields; in the pipeline the
    compressor is called after the whole chain when encoding and before it
    when decoding.  A run that fails has called a prefix of that
    sequence. *)
Theorem filters_invoked_in_order (filters : list config)
    (chunk : np.ndarray) (spec : ArraySpec.t) :
  (forall r log,
     V2Filters.encode_single get_codec array_of_bytes (Some filters) chunk spec []
     = (r, log) ->
     is_prefix (offloads log) (map (fun f => (f, Forward)) filters)
     /\ (is_ok r = true ->
         offloads log = map (fun f => (f, Forward)) filters)
     /\ chained (np.ravel chunk (ArraySpec.order spec)) log
     /\ genuine get_codec log
     /\ r = match composed get_codec Forward filters
                     (np.ravel chunk (ArraySpec.order spec)) with
            | Ok y => wrapped array_of_bytes y
            | Err e => Err e
            end)
  /\ (forall r log,
        V2Filters.decode_single get_codec (Some filters) chunk spec []
        = (r, log) ->
        is_prefix (offloads log) (map (fun f => (f, Inverse)) (rev filters))
        /\ (is_ok r = true ->
            offloads log = map (fun f => (f, Inverse)) (rev filters))
        /\ chained chunk log
        /\ genuine get_codec log
        /\ r = match composed get_codec Inverse (rev filters) chunk with
               | Ok y => reconciled y spec
               | Err e => Err e
               end)
  /\ (forall compressor b log,
        pipeline_encode get_codec array_of_bytes (Some filters) compressor
                        chunk spec []
        = (Ok b, log) ->
        offloads log
        = map (fun f => (f, Forward)) filters
          ++ compressor_call compressor Forward
        /\ genuine get_codec log)
  /\ (forall compressor b z log,
        pipeline_decode get_codec (Some filters) compressor (Some b) spec []
        = (Ok (Some z), log) ->
        offloads log
        = compressor_call compressor Inverse
          ++ map (fun f => (f, Inverse)) (rev filters)
        /\ genuine get_codec log).
Proof.
  (* the two loops, started from any log *)
  assert (Hfwd : forall (x : NDBuffer.t) log0 r log,
            V2Filters.encode_single get_codec array_of_bytes (Some filters) x
                                    spec log0 = (r, log) ->
            exists evs r0,
              log = log0 ++ evs
              /\ r = match r0 with
                     | Ok y => wrapped array_of_bytes y
                     | Err e => Err e
                     end
              /\ r0 = composed get_codec Forward filters
                        (np.ravel x (ArraySpec.order spec))
              /\ is_prefix (offloads evs) (map (fun f => (f, Forward)) filters)
              /\ (is_ok r0 = true ->
                  offloads evs = map (fun f => (f, Forward)) filters)
              /\ chained (np.ravel x (ArraySpec.order spec)) evs
              /\ genuine get_codec evs).
  { intros x log0 r log Hrun.
    destruct (filtered get_codec (Some filters) x spec log0)
      as [r0 log1] eqn:Hloop.
    rewrite (filters_encode_run get_codec array_of_bytes _ _ _ _ _ _ Hloop)
      in Hrun.
    injection Hrun as <- <-.
    pose proof (for_each_composed get_codec Forward filters
                  (np.ravel x (ArraySpec.order spec)) log0) as Hval.
    unfold filtered, NDBuffer.as_numpy_array in Hloop.
    change (filter_step get_codec Forward numcodecs.encode)
      with (filter_step get_codec Forward (operation Forward)) in Hloop.
    rewrite Hloop in Hval. simpl in Hval.
    destruct (filter_loop_log get_codec _ _ _ _ _ _ Hloop)
      as (evs & -> & Hpre & Hall & Hch & Hgen).
    exists evs, r0. now repeat split. }
  assert (Hbwd : forall (x : NDBuffer.t) log0 r log,
            V2Filters.decode_single get_codec (Some filters) x spec log0
            = (r, log) ->
            exists evs r0,
              log = log0 ++ evs
              /\ r = match r0 with
                     | Ok y => reconciled y spec
                     | Err e => Err e
                     end
              /\ r0 = composed get_codec Inverse (rev filters) x
              /\ is_prefix (offloads evs)
                           (map (fun f => (f, Inverse)) (rev filters))
              /\ (is_ok r0 = true ->
                  offloads evs = map (fun f => (f, Inverse)) (rev filters))
              /\ chained x evs
              /\ genuine get_codec evs).
  { intros x log0 r log Hrun.
    destruct (unfiltered get_codec (Some filters) x log0)
      as [r0 log1] eqn:Hloop.
    rewrite (filters_decode_run get_codec _ _ _ _ _ _ Hloop) in Hrun.
    injection Hrun as <- <-.
    pose proof (for_each_composed get_codec Inverse (rev filters) x log0)
      as Hval.
    unfold unfiltered, NDBuffer.as_numpy_array in Hloop.
    change (filter_step get_codec Inverse numcodecs.decode)
      with (filter_step get_codec Inverse (operation Inverse)) in Hloop.
    rewrite Hloop in Hval. simpl in Hval.
    destruct (filter_loop_log get_codec _ _ _ _ _ _ Hloop)
      as (evs & -> & Hpre & Hall & Hch & Hgen).
    exists evs, r0. now repeat split. }
  assert (Hok : forall A B (r0 : result A) (k : A -> result B),
            is_ok (match r0 with Ok y => k y | Err e => Err e end) = true ->
            is_ok r0 = true).
  { intros A B [y|e] k H; [reflexivity|discriminate]. }
  split; [|split; [|split]].
  - intros r log Hrun.
    destruct (Hfwd _ _ _ _ Hrun)
      as (evs & r0 & -> & -> & -> & Hpre & Hall & Hch & Hgen).
    simpl. repeat split; try assumption.
    intros Hr. apply Hall. exact (Hok _ _ _ _ Hr).
  - intros r log Hrun.
    destruct (Hbwd _ _ _ _ Hrun)
      as (evs & r0 & -> & -> & -> & Hpre & Hall & Hch & Hgen).
    simpl. repeat split; try assumption.
    intros Hr. apply Hall. exact (Hok _ _ _ _ Hr).
  - intros compressor b log Hrun. unfold pipeline_encode in Hrun.
    apply bind_inv in Hrun.
    destruct Hrun as [(a & log1 & Hf & Hc)|(e & _ & [=])].
    destruct (Hfwd _ _ _ _ Hf)
      as (evs & r0 & -> & Hr & _ & _ & Hall & _ & Hgen).
    destruct (compressor_encode_log get_codec _ _ _ _ _ _ Hc)
      as (evs2 & -> & Hevs2 & Hgen2).
    simpl. rewrite offloads_app, Hevs2.
    split; [|now apply genuine_app].
    rewrite Hall; [reflexivity|]. now destruct r0.
  - intros compressor b z log Hrun. unfold pipeline_decode in Hrun.
    apply bind_inv in Hrun.
    destruct Hrun as [(a & log1 & Hc & Hf)|(e & _ & [=])].
    rewrite compressor_decode_unfold in Hc. apply bind_inv in Hc.
    destruct Hc as [(raw & log0 & Hraw & Hrest)|(e & _ & [=])].
    destruct (decompressed_log get_codec _ _ _ _ _ Hraw)
      as (evs1 & -> & Hevs1 & Hgen1).
    apply bind_inv in Hrest.
    destruct Hrest as [(v & log2 & Hrec & Hret)|(e & _ & [=])].
    apply reconcile_keeps_log in Hrec. subst log2.
    injection Hret as <- <-.
    apply bind_inv in Hf.
    destruct Hf as [(y & log3 & Hdec & Hret)|(e & _ & [=])].
    injection Hret as _ <-.
    destruct (Hbwd _ _ _ _ Hdec)
      as (evs2 & r0 & -> & Hr & _ & _ & Hall & _ & Hgen2).
    simpl. rewrite !offloads_app, Hevs1.
    split; [|now apply genuine_app].
    rewrite Hall; [reflexivity|]. now destruct r0.
Qed.

(** C3.  Given the "no data" sentinel, [V2Compressor.decode_single]
    returns the sentinel at once, whatever the specification and the
    compressor configuration: nothing is resolved and nothing is called
    (the log is left as it was).  The pipeline then stops as well. *)
Theorem sentinel_short_circuits (filters : option (list config))
    (compressor : option config) (spec : ArraySpec.t)
    (log : list (event config)) :
  V2Compressor.decode_single get_codec compressor None spec log
  = (Ok None, log)
  /\ pipeline_decode get_codec filters compressor None spec log
     = (Ok None, log).
Proof. split; reflexivity. Qed.

(** C4.  In [V2Compressor.decode_single], when the dtype string of the
    decompressed (or raw) array is that of [spec.dtype] the array is
    returned as it is; when it differs the result is [view]'s: the same
    memory block at the same offset labelled with [spec.dtype], with the
    same byte count and the same byte image, no value being converted. *)
Theorem dtype_reinterpreted (compressor : option config) (b : Buffer.t)
    (spec : ArraySpec.t) (log log' : list (event config))
    (raw : np.ndarray) :
  decompressed get_codec compressor b log = (Ok raw, log') ->
  (np.str (np.arr_dtype raw) = np.str (ArraySpec.dtype spec) ->
   V2Compressor.decode_single get_codec compressor (Some b) spec log
   = (Ok (Some raw), log'))
  /\ (np.str (np.arr_dtype raw) <> np.str (ArraySpec.dtype spec) ->
      (forall v, np.view raw (ArraySpec.dtype spec) = Ok v ->
         V2Compressor.decode_single get_codec compressor (Some b) spec log
         = (Ok (Some v), log')
         /\ np.arr_dtype v = ArraySpec.dtype spec
         /\ np.data v = np.data raw /\ np.offset v = np.offset raw
         /\ np.nbytes v = np.nbytes raw
         /\ (List.length (np.strides raw) = np.ndim raw ->
             np.tobytes v np.C = np.tobytes raw np.C))
      /\ (forall e, np.view raw (ArraySpec.dtype spec) = Err e ->
            V2Compressor.decode_single get_codec compressor (Some b) spec log
            = (Err e, log'))).
Proof.
  intros Hraw. rewrite compressor_decode_unfold.
  rewrite (bind_ok _ _ _ _ _ Hraw). split.
  - intros Heq. apply String.eqb_eq in Heq. unfold bind. now rewrite Heq.
  - intros Hne. apply String.eqb_neq in Hne. unfold bind. rewrite Hne.
    simpl. unfold lift. split.
    + intros v Hv. rewrite Hv. split; [reflexivity|].
      now apply view_relabels.
    + intros e He. now rewrite He.
Qed.

(** C5.  In [V2Filters.decode_single], once the inverse filters have run
    and left [y]: if the shape of [y] is [spec.shape], [y] is returned as
    it is; otherwise the result is that of reshaping [y] to [spec.shape]
    in order [spec.order], which, the element counts agreeing, has shape
    [spec.shape] and the elements of [y] in that order.  With an empty
    filter list the same step is applied to the input itself. *)
Theorem shape_reconciled (filters : option (list config)) (x : NDBuffer.t)
    (spec : ArraySpec.t) (log log' : list (event config)) (y : np.ndarray) :
  unfiltered get_codec filters x log = (Ok (numcodecs.Array y), log') ->
  (np.shape y = ArraySpec.shape spec ->
   V2Filters.decode_single get_codec filters x spec log = (Ok y, log'))
  /\ (np.shape y <> ArraySpec.shape spec ->
      V2Filters.decode_single get_codec filters x spec log
      = (np.reshape y (ArraySpec.shape spec) (ArraySpec.order spec), log')
      /\ (np.size y = np.prod (ArraySpec.shape spec) ->
          exists z,
            np.reshape y (ArraySpec.shape spec) (ArraySpec.order spec) = Ok z
            /\ np.shape z = ArraySpec.shape spec
            /\ np.arr_dtype z = np.arr_dtype y
            /\ np.elements (ArraySpec.order spec) z
               = np.elements (ArraySpec.order spec) y))
  /\ V2Filters.decode_single get_codec (Some []) x spec log
     = (if shape_eqb (np.shape x) (ArraySpec.shape spec)
        then Ok x
        else np.reshape x (ArraySpec.shape spec) (ArraySpec.order spec),
        log).
Proof.
  intros Hun. split; [|split].
  - intros Heq. apply shape_eqb_eq in Heq.
    rewrite (filters_decode_run get_codec _ _ _ _ _ _ Hun).
    unfold reconciled. now rewrite Heq.
  - intros Hne.
    assert (Hb : shape_eqb (np.shape y) (ArraySpec.shape spec) = false).
    { destruct (shape_eqb _ _) eqn:Hb; [|reflexivity].
      apply shape_eqb_eq in Hb. contradiction. }
    split.
    + rewrite (filters_decode_run get_codec _ _ _ _ _ _ Hun).
      unfold reconciled. now rewrite Hb.
    + intros Hsz. rewrite (reshape_ok _ _ _ Hsz). eexists.
      split; [reflexivity|]. repeat split.
      now apply elements_fresh_tobytes.
  - unfold V2Filters.decode_single, NDBuffer.as_numpy_array. simpl.
    unfold bind, ret, lift.
    destruct (shape_eqb (np.shape x) (ArraySpec.shape spec)); simpl;
      [reflexivity|].
    now destruct (np.reshape x _ _).
Qed.

(** C6.  For an array that is neither C nor Fortran contiguous,
    [V2Compressor.encode_single] gives exactly what it gives for the
    contiguous copy [copy(order="A")] of the array, which is C contiguous
    and equivalent to it.  Without a compressor that is the C-order byte
    image of the array, never a failure; with a compressor it is the
    compressor's output on the copy, as soon as the compressor resolves
    and accepts the copy. *)
Theorem noncontiguous_encode (compressor : option config) (a : NDBuffer.t)
    (spec : ArraySpec.t) (log : list (event config)) :
  np.c_contiguous a = false -> np.f_contiguous a = false ->
  V2Compressor.encode_single get_codec compressor a spec log
  = V2Compressor.encode_single get_codec compressor (np.copy_A a) spec log
  /\ (np.c_contiguous (np.copy_A a) = true /\ np.equiv (np.copy_A a) a)
  /\ (compressor = None ->
      V2Compressor.encode_single get_codec compressor a spec log
      = (Ok (np.tobytes a np.C), log))
  /\ (forall cfg c e,
        compressor = Some cfg -> get_codec cfg = Ok c ->
        numcodecs.encode c (np.copy_A a) = Ok e ->
        fst (V2Compressor.encode_single get_codec compressor a spec log)
        = Ok (numcodecs.ensure_bytes e)).
Proof.
  intros Hc Hf.
  assert (Hcopy : np.c_contiguous (np.copy_A a) = true).
  { rewrite copy_A_noncontiguous by exact Hf. apply c_contiguous_fresh_C. }
  assert (Hbytes : numcodecs.ensure_bytes (np.copy_A a)
                   = numcodecs.ensure_bytes a).
  { rewrite (ensure_bytes_c_contiguous _ Hcopy).
    rewrite (ensure_bytes_noncontiguous _ Hf).
    rewrite copy_A_noncontiguous by exact Hf. now apply tobytes_fresh. }
  split; [|split; [|split]].
  - unfold V2Compressor.encode_single, NDBuffer.as_numpy_array.
    destruct compressor as [cfg|].
    + now rewrite Hc, Hf, Hcopy.
    + now rewrite Hbytes.
  - split; [exact Hcopy | apply copy_A_equiv].
  - intros ->. unfold V2Compressor.encode_single, NDBuffer.as_numpy_array.
    unfold bind, ret, Buffer.from_bytes.
    now rewrite (ensure_bytes_noncontiguous _ Hf).
  - intros cfg c e -> Hget He.
    unfold V2Compressor.encode_single, NDBuffer.as_numpy_array.
    unfold bind, numcodecs_get_codec, to_thread, ret.
    rewrite Hget, Hc, Hf. simpl. now rewrite He.
Qed.

(** C7.  With an empty filter list and no compressor, the pipeline
    encodes a chunk to the byte image of the chunk in order [spec.order],
    and decodes those bytes, for a chunk conforming to the specification,
    to an array of shape [spec.shape] equivalent to the chunk; no
    transform is resolved or called in either direction. *)
Theorem passthrough (chunk : np.ndarray) (spec : ArraySpec.t) :
  pipeline_encode get_codec array_of_bytes (Some []) None chunk spec []
  = (Ok (np.tobytes chunk (ArraySpec.order spec)), [])
  /\ (conforms chunk spec ->
      exists z,
        pipeline_decode get_codec (Some []) None
          (Some (np.tobytes chunk (ArraySpec.order spec))) spec []
        = (Ok (Some z), [])
        /\ np.equiv z chunk /\ np.shape z = ArraySpec.shape spec).
Proof.
  split.
  { unfold pipeline_encode, V2Filters.encode_single,
      V2Compressor.encode_single, NDBuffer.as_numpy_array,
      NDBuffer.from_numpy_array, Buffer.from_bytes.
    simpl. unfold bind, ret. now rewrite ensure_bytes_ravel. }
  intros (Hsh & Hdt).
  set (b := np.tobytes chunk (ArraySpec.order spec)).
  assert (Hb : b = numcodecs.ensure_bytes
                     (np.ravel chunk (ArraySpec.order spec)))
    by (symmetry; apply ensure_bytes_ravel).
  assert (Hm : np.nbytes (Buffer.as_array_like b)
               mod np.itemsize (ArraySpec.dtype spec) = 0).
  { rewrite <- length_ensure_bytes, ensure_bytes_as_array_like.
    unfold b. rewrite length_tobytes, nbytes_eq, Hdt.
    apply Nat.Div0.mod_mul. }
  destruct (compressor_decode_flat get_codec None b spec
              (Buffer.as_array_like b) [] [] eq_refl
              (as_array_like_flat b) Hm)
    as (v & Hv & Hvd & Hvflat & Hvbytes).
  rewrite ensure_bytes_as_array_like, Hb in Hvbytes.
  assert (Hvx : np.equiv v (np.ravel chunk (ArraySpec.order spec))).
  { apply flat_same_bytes_equiv; try assumption; try reflexivity.
    simpl. congruence. }
  destruct (reconciled_raveled v chunk spec Hsh Hvx) as (z & Hz & Hzc).
  exists z. split; [|split; [exact Hzc|]].
  - unfold pipeline_decode. rewrite (bind_ok _ _ _ _ _ Hv).
    unfold bind.
    rewrite (filters_decode_run get_codec (Some []) v spec [] []
               (Ok (numcodecs.Array v)) eq_refl).
    now rewrite Hz.
  - destruct Hzc as (_ & -> & _). exact Hsh.
Qed.

(** C8.  The two reconciliation steps never truncate or pad.  In
    [V2Compressor.decode_single], a decompressed array whose byte count
    the item size of [spec.dtype] does not divide makes the call fail
    with [ValueError]; any array it returns has the byte count and byte
    image of the decompressed one; and a flat buffer of a suitable byte
    count is always relabelled.  In [V2Filters.decode_single], an
    element count other than that of [spec.shape] makes the call fail
    with [ValueError], and an equal one gives an array of shape
    [spec.shape] with the same elements. *)
Theorem incompatible_bytes_rejected
    (compressor : option config) (b : Buffer.t) (spec : ArraySpec.t)
    (log1 log1' : list (event config)) (raw : np.ndarray)
    (filters : option (list config)) (x : NDBuffer.t)
    (log2 log2' : list (event config)) (y : np.ndarray) :
  decompressed get_codec compressor b log1 = (Ok raw, log1') ->
  unfiltered get_codec filters x log2 = (Ok (numcodecs.Array y), log2') ->
  ((np.nbytes raw mod np.itemsize (ArraySpec.dtype spec) <> 0 ->
    V2Compressor.decode_single get_codec compressor (Some b) spec log1
    = (Err ValueError, log1'))
   /\ (forall r log,
         V2Compressor.decode_single get_codec compressor (Some b) spec log1
         = (r, log) ->
         log = log1'
         /\ (r = Err ValueError
             \/ exists v, r = Ok (Some v)
                  /\ np.arr_dtype v = ArraySpec.dtype spec
                  /\ np.nbytes v = np.nbytes raw
                  /\ (List.length (np.strides raw) = np.ndim raw ->
                      np.tobytes v np.C = np.tobytes raw np.C)))
   /\ (flat_buffer raw ->
       np.nbytes raw mod np.itemsize (ArraySpec.dtype spec) = 0 ->
       exists v,
         V2Compressor.decode_single get_codec compressor (Some b) spec log1
         = (Ok (Some v), log1')
         /\ np.arr_dtype v = ArraySpec.dtype spec
         /\ numcodecs.ensure_bytes v = numcodecs.ensure_bytes raw))
  /\ ((np.size y <> np.prod (ArraySpec.shape spec) ->
       V2Filters.decode_single get_codec filters x spec log2
       = (Err ValueError, log2'))
      /\ (np.size y = np.prod (ArraySpec.shape spec) ->
          exists z,
            V2Filters.decode_single get_codec filters x spec log2
            = (Ok z, log2')
            /\ np.shape z = ArraySpec.shape spec
            /\ np.arr_dtype z = np.arr_dtype y
            /\ np.elements (ArraySpec.order spec) z
               = np.elements (ArraySpec.order spec) y)).
Proof.
  intros Hraw Hun. split.
  - assert (Hstep : V2Compressor.decode_single get_codec compressor (Some b)
                      spec log1
                    = (if String.eqb (np.str (np.arr_dtype raw))
                                     (np.str (ArraySpec.dtype spec))
                       then Ok (Some raw)
                       else match np.view raw (ArraySpec.dtype spec) with
                            | Ok v => Ok (Some v)
                            | Err e => Err e
                            end, log1')).
    { rewrite compressor_decode_unfold, (bind_ok _ _ _ _ _ Hraw).
      unfold bind, lift, ret.
      destruct (String.eqb _ _); simpl; [reflexivity|].
      now destruct (np.view raw _). }
    rewrite Hstep. split; [|split].
    + intros Hmod.
      destruct (String.eqb _ _) eqn:Heq.
      * exfalso. apply Hmod. apply str_eqb_eq in Heq. rewrite <- Heq.
        rewrite nbytes_eq. apply Nat.Div0.mod_mul.
      * now rewrite (view_incompatible _ _ Hmod).
    + intros r log [= <- <-]. split; [reflexivity|].
      destruct (String.eqb _ _) eqn:Heq.
      * right. exists raw. apply str_eqb_eq in Heq. now repeat split.
      * destruct (np.view raw (ArraySpec.dtype spec)) as [v|e] eqn:Hv.
        -- right. exists v.
           destruct (view_relabels _ _ _ Hv) as (? & _ & _ & ? & ?).
           now repeat split.
        -- left. now rewrite (view_fails_with_ValueError raw _ _ Hv).
    + intros Hflat Hmod. rewrite <- Hstep.
      destruct (compressor_decode_flat get_codec compressor b spec raw
                  log1 log1' Hraw Hflat Hmod) as (v & Hv & Hd & _ & Hb).
      now exists v.
  - rewrite (filters_decode_run get_codec _ _ _ _ _ _ Hun).
    unfold reconciled. split.
    + intros Hne.
      assert (Hb : shape_eqb (np.shape y) (ArraySpec.shape spec) = false).
      { destruct (shape_eqb _ _) eqn:Hb; [|reflexivity].
        apply shape_eqb_eq in Hb. exfalso. apply Hne.
        unfold np.size. now rewrite Hb. }
      rewrite Hb.
      now rewrite (reshape_err _ _ _ Hne).
    + intros Heq.
      destruct (shape_eqb (np.shape y) (ArraySpec.shape spec)) eqn:Hb; simpl.
      * apply shape_eqb_eq in Hb. exists y. now repeat split.
      * rewrite (reshape_ok _ _ _ Heq). eexists.
        split; [reflexivity|]. repeat split.
        now apply elements_fresh_tobytes.
Qed.

(** C9.  [compute_encoded_size] of either stage raises
    [NotImplementedError] for every byte length and specification, and so
    never returns a value. *)
Theorem compute_encoded_size_unsupported (input_byte_length : Z)
    (spec : ArraySpec.t) :
  V2Compressor.compute_encoded_size input_byte_length spec
  = Err NotImplementedError
  /\ V2Filters.compute_encoded_size input_byte_length spec
     = Err NotImplementedError
  /\ forall v : Z,
      V2Compressor.compute_encoded_size input_byte_length spec <> Ok v
      /\ V2Filters.compute_encoded_size input_byte_length spec <> Ok v.
Proof. repeat split; discriminate. Qed.

(** C10.  With [filters = None], [V2Filters.decode_single] does what it
    does for the empty list: no transform is resolved or called, the
    shape is reconciled, and whatever is returned has shape
    [spec.shape].  [V2Filters.encode_single] has no such guard: iterating
    over [None] raises [TypeError]. *)
Theorem none_filters_decode_like_empty (x : NDBuffer.t) (spec : ArraySpec.t)
    (log : list (event config)) :
  V2Filters.decode_single get_codec None x spec log
  = V2Filters.decode_single get_codec (Some []) x spec log
  /\ snd (V2Filters.decode_single get_codec None x spec log) = log
  /\ (forall z log',
        V2Filters.decode_single get_codec None x spec log = (Ok z, log') ->
        np.shape z = ArraySpec.shape spec)
  /\ (np.size x = np.prod (ArraySpec.shape spec) ->
      exists z,
        V2Filters.decode_single get_codec None x spec log = (Ok z, log)
        /\ np.shape z = ArraySpec.shape spec
        /\ np.elements (ArraySpec.order spec) z
           = np.elements (ArraySpec.order spec) x)
  /\ V2Filters.encode_single get_codec array_of_bytes None x spec log
     = (Err TypeError, log).
Proof.
  assert (Hstep : V2Filters.decode_single get_codec None x spec log
                  = (if shape_eqb (np.shape x) (ArraySpec.shape spec)
                     then Ok x
                     else np.reshape x (ArraySpec.shape spec)
                                     (ArraySpec.order spec), log)).
  { unfold V2Filters.decode_single, NDBuffer.as_numpy_array.
    unfold bind, ret, lift.
    destruct (shape_eqb (np.shape x) (ArraySpec.shape spec)); simpl;
      [reflexivity|].
    now destruct (np.reshape x _ _). }
  split; [|split; [|split; [|split]]].
  - reflexivity.
  - now rewrite Hstep.
  - intros z log'. rewrite Hstep.
    destruct (shape_eqb (np.shape x) (ArraySpec.shape spec)) eqn:Hb.
    + intros [= <- _]. now apply shape_eqb_eq.
    + unfold np.reshape. destruct (np.size x =? _); [|discriminate].
      now intros [= <- _].
  - intros Hsz. rewrite Hstep.
    destruct (shape_eqb (np.shape x) (ArraySpec.shape spec)) eqn:Hb.
    + exists x. apply shape_eqb_eq in Hb. now repeat split.
    + rewrite (reshape_ok _ _ _ Hsz). eexists. split; [reflexivity|].
      split; [reflexivity|]. now apply elements_fresh_tobytes.
  - reflexivity.
Qed.

End Claims.

(** ** The test doubles are inverse pairs *)

Lemma fresh_flat_buffer (d : np.dtype) (n : nat) (mem : list byte) :
  flat_buffer (np.fresh d [n] np.C mem).
Proof.
  apply (flat_buffer_intro _ n); [reflexivity|].
  simpl. now rewrite Nat.add_0_r.
Qed.

Lemma frombuffer_bytes (d : np.dtype) (bs : list byte) (y : np.ndarray) :
  np.frombuffer d bs = Ok y ->
  np.arr_dtype y = d /\ np.ndim y = 1 /\ numcodecs.ensure_bytes y = bs.
Proof.
  unfold np.frombuffer.
  destruct (Nat.eqb_spec (List.length bs mod np.itemsize d) 0) as [Hm|];
    [|discriminate].
  intros [= <-]. split; [reflexivity|]. split; [reflexivity|].
  rewrite flat_buffer_ensure_bytes by apply fresh_flat_buffer.
  rewrite nbytes_eq. simpl.
  apply Nat.Div0.div_exact in Hm.
  replace (List.length bs / np.itemsize d * 1 * np.itemsize d)
    with (List.length bs) by lia.
  rewrite <- (app_nil_r bs) at 1. apply read_bytes_all.
Qed.

Lemma frombuffer_ensure_bytes (x : np.ndarray) :
  np.ndim x = 1 ->
  exists y, np.frombuffer (np.arr_dtype x) (numcodecs.ensure_bytes x) = Ok y
            /\ np.equiv y x.
Proof.
  intros Hx. unfold np.frombuffer.
  rewrite length_ensure_bytes, nbytes_eq, Nat.Div0.mod_mul. simpl.
  eexists. split; [reflexivity|].
  apply flat_same_bytes_equiv; try reflexivity; try assumption.
  eapply frombuffer_bytes. unfold np.frombuffer.
  now rewrite length_ensure_bytes, nbytes_eq, Nat.Div0.mod_mul.
Qed.

(** The header filter recovers every flat array of its element type from
    anything holding the bytes it produced. *)
Lemma header_inverts (d : np.dtype) (x : np.ndarray) :
  np.ndim x = 1 -> np.arr_dtype x = d ->
  exists e,
    numcodecs.encode (doubles.header d) x = Ok e
    /\ forall e', numcodecs.ensure_bytes e' = numcodecs.ensure_bytes e ->
         exists y, numcodecs.decode (doubles.header d) e'
                   = Ok (numcodecs.Array y)
                   /\ np.equiv y x.
Proof.
  intros Hx <-. eexists. split; [reflexivity|].
  intros e' He'. simpl. rewrite He', ensure_bytes_as_array_like.
  destruct (frombuffer_ensure_bytes x Hx) as (y & -> & Hy).
  now exists y.
Qed.

(** Values that are alike hold the same bytes, when they are flat. *)
Lemma similar_ensure_bytes_flat (y : numcodecs.buffer_like) (x : np.ndarray) :
  similar y x -> np.ndim x = 1 ->
  exists a, y = numcodecs.Array a /\ np.arr_dtype a = np.arr_dtype x
            /\ numcodecs.ensure_bytes y = numcodecs.ensure_bytes x.
Proof.
  destruct y as [b|a]; [contradiction|]. intros Hsim Hx. exists a.
  split; [reflexivity|]. split; [apply Hsim|].
  now apply equiv_ensure_bytes_flat.
Qed.

Open Scope string_scope.

(** ** The claims at concrete inputs *)

(** The round trip of [grid16], stored column-major through a filter
    that insists on the element type, the byte-reversing filter and a
    compressor returning [bytes]. *)
Lemma roundtrip_witness :
  conforms doubles.grid16 doubles.spec_grid16
  /\ filtered_to doubles.registry doubles.array_of_bytes ["strict"; "reversal"]
       doubles.grid16 doubles.spec_grid16 doubles.grid16_filtered
  /\ exists b log,
      pipeline_encode doubles.registry doubles.array_of_bytes
        (Some ["strict"; "reversal"]) (Some "plain")
        doubles.grid16 doubles.spec_grid16 [] = (Ok b, log)
      /\ exists z log',
          pipeline_decode doubles.registry (Some ["strict"; "reversal"])
                          (Some "plain") (Some b) doubles.spec_grid16 []
          = (Ok (Some z), log')
          /\ np.equiv z doubles.grid16.
Proof.
  assert (Hc : conforms doubles.grid16 doubles.spec_grid16)
    by (split; reflexivity).
  assert (He : filtered_to doubles.registry doubles.array_of_bytes
                 ["strict"; "reversal"] doubles.grid16 doubles.spec_grid16
                 doubles.grid16_filtered)
    by (eexists; reflexivity).
  split; [exact Hc|]. split; [exact He|].
  apply (roundtrip doubles.registry doubles.array_of_bytes similar
                   ["strict"; "reversal"] (Some "plain")
                   doubles.grid16 doubles.spec_grid16
                   doubles.grid16_filtered Hc He).
  - reflexivity.
  - intros y x H. exact H.
  - simpl. eexists. eexists. split; [reflexivity|]. split; [reflexivity|].
    split.
    { intros e' He'.
      destruct (similar_ensure_bytes_flat _ _ He' eq_refl)
        as (a & -> & Hd & Hb).
      simpl. rewrite Hd, Hb. eexists. split; [reflexivity|]. repeat split. }
    eexists. eexists. split; [reflexivity|]. split; [reflexivity|].
    split; [|exact I].
    intros e' (a & -> & _ & _ & Hb).
    simpl. rewrite Hb. eexists. split; [reflexivity|]. repeat split.
  - simpl. eexists. eexists. eexists.
    split; [reflexivity|]. split; [reflexivity|]. split; [reflexivity|].
    split; [|reflexivity]. repeat split.
Defined.

(** Inverse pairs that do not survive the pipeline.  The header filter
    recovers its input from anything holding the bytes it produced, yet
    the chunk [one16] is lost, because the three bytes stored cannot be
    relabelled as 16-bit integers.  The narrowing filter recovers its
    input from any array equal to the one it produced, and the two bytes
    stored can be relabelled, yet the chunk is lost, because the filter's
    inverse is handed the relabelled array and not an array of bytes. *)
Lemma roundtrip_fails_for_inverse_filters :
  conforms doubles.one16 doubles.spec_one16
  /\ compressor_invertible doubles.registry None doubles.one16_filtered
  /\ compressor_invertible doubles.registry None doubles.one16_narrowed
  (* the padding filter *)
  /\ (filtered_to doubles.registry doubles.array_of_bytes ["header"]
        doubles.one16 doubles.spec_one16 doubles.one16_filtered
      /\ filters_inverse doubles.registry similar
           (fun e' => numcodecs.ensure_bytes e'
                      = numcodecs.ensure_bytes doubles.one16_filtered)
           ["header"]
           (np.ravel doubles.one16 (ArraySpec.order doubles.spec_one16))
      /\ (forall x, np.ndim x = 1 -> np.arr_dtype x = np.int16 ->
            exists e y,
              numcodecs.encode (doubles.header np.int16) x = Ok e
              /\ numcodecs.decode (doubles.header np.int16) e = Ok y
              /\ similar y x)
      /\ np.nbytes doubles.one16_filtered
         mod np.itemsize (ArraySpec.dtype doubles.spec_one16) = 1
      /\ pipeline_encode doubles.registry doubles.array_of_bytes
           (Some ["header"]) None doubles.one16 doubles.spec_one16 []
         = (Ok [x00; x01; x00],
            [Resolved "header";
             Offloaded "header" Forward
               (np.ravel doubles.one16 np.C)
               (Ok (numcodecs.Array doubles.one16_filtered))])
      /\ pipeline_decode doubles.registry (Some ["header"]) None
                         (Some [x00; x01; x00]) doubles.spec_one16 []
         = (Err ValueError, []))
  (* the narrowing filter *)
  /\ (filtered_to doubles.registry doubles.array_of_bytes ["narrow"]
        doubles.one16 doubles.spec_one16 doubles.one16_narrowed
      /\ filters_inverse doubles.registry similar
           (fun e' => similar e' (numcodecs.Array doubles.one16_narrowed))
           ["narrow"]
           (np.ravel doubles.one16 (ArraySpec.order doubles.spec_one16))
      /\ np.nbytes doubles.one16_narrowed
         mod np.itemsize (ArraySpec.dtype doubles.spec_one16) = 0
      /\ pipeline_encode doubles.registry doubles.array_of_bytes
           (Some ["narrow"]) None doubles.one16 doubles.spec_one16 []
         = (Ok [x01; x00],
            [Resolved "narrow";
             Offloaded "narrow" Forward
               (np.ravel doubles.one16 np.C)
               (Ok (numcodecs.Array doubles.one16_narrowed))])
      /\ pipeline_decode doubles.registry (Some ["narrow"]) None
                         (Some [x01; x00]) doubles.spec_one16 []
         = (Err TypeError,
            [Resolved "narrow";
             Offloaded "narrow" Inverse
               (np.fresh np.int16 [1] np.C [x01; x00])
               (Err TypeError)])).
Proof.
  split; [split; reflexivity|]. split; [exact I|]. split; [exact I|].
  split.
  - split; [eexists; reflexivity|].
    split; [|split; [|split; [|split]]]; try reflexivity.
    + simpl. eexists. eexists. split; [reflexivity|]. split; [reflexivity|].
      split; [|exact I].
      intros e' He'. simpl. rewrite He'. eexists.
      split; [reflexivity|]. repeat split.
    + intros x Hx Hd.
      destruct (header_inverts np.int16 x Hx Hd) as (e & He & Hback).
      destruct (Hback e eq_refl) as (y & Hy & Hyx).
      now exists e, (numcodecs.Array y).
  - split; [eexists; reflexivity|].
    split; [|split; [|split]]; try reflexivity.
    simpl. eexists. eexists. split; [reflexivity|]. split; [reflexivity|].
    split; [|exact I].
    intros e' He'.
    destruct (similar_ensure_bytes_flat _ _ He' eq_refl)
      as (a & -> & Hd & Hb).
    simpl. rewrite Hd, Hb. eexists. split; [reflexivity|]. repeat split.
Qed.

(** The order of calls for the two-filter chain ["reversal"; "header"]
    and the compressor "pack", and what the forward chain returns. *)
Lemma filters_invoked_in_order_witness :
  offloads (snd (V2Filters.encode_single doubles.registry doubles.array_of_bytes
                   (Some ["reversal"; "header"]) doubles.one16
                   doubles.spec_one16 []))
  = [("reversal", Forward); ("header", Forward)]
  /\ fst (V2Filters.encode_single doubles.registry doubles.array_of_bytes
            (Some ["reversal"; "header"]) doubles.one16
            doubles.spec_one16 [])
     = Ok (Buffer.as_array_like [x00; x00; x01])
  /\ offloads (snd (V2Filters.decode_single doubles.registry
                      (Some ["reversal"; "header"])
                      (Buffer.as_array_like [x00; x00; x01])
                      doubles.spec_one16 []))
     = [("header", Inverse); ("reversal", Inverse)]
  /\ offloads (snd (pipeline_encode doubles.registry doubles.array_of_bytes
                      (Some ["reversal"; "header"]) (Some "pack")
                      doubles.one16 doubles.spec_one16 []))
     = [("reversal", Forward); ("header", Forward); ("pack", Forward)].
Proof.
  pose proof (filters_invoked_in_order doubles.registry doubles.array_of_bytes
                ["reversal"; "header"] doubles.one16 doubles.spec_one16)
    as (Henc & _ & Hpipe & _).
  pose proof (filters_invoked_in_order doubles.registry doubles.array_of_bytes
                ["reversal"; "header"]
                (Buffer.as_array_like [x00; x00; x01]) doubles.spec_one16)
    as (_ & Hdec & _ & _).
  split; [|split; [|split]].
  - destruct (V2Filters.encode_single doubles.registry doubles.array_of_bytes
                (Some ["reversal"; "header"]) doubles.one16
                doubles.spec_one16 []) as [r log] eqn:Hrun.
    destruct (Henc r log eq_refl) as (_ & Hall & _).
    apply Hall. vm_compute in Hrun. now injection Hrun as <- _.
  - destruct (V2Filters.encode_single doubles.registry doubles.array_of_bytes
                (Some ["reversal"; "header"]) doubles.one16
                doubles.spec_one16 []) as [r log] eqn:Hrun.
    destruct (Henc r log eq_refl) as (_ & _ & _ & _ & ->). reflexivity.
  - destruct (V2Filters.decode_single doubles.registry
                (Some ["reversal"; "header"])
                (Buffer.as_array_like [x00; x00; x01])
                doubles.spec_one16 []) as [r log] eqn:Hrun.
    destruct (Hdec r log eq_refl) as (_ & Hall & _).
    apply Hall. vm_compute in Hrun. now injection Hrun as <- _.
  - destruct (pipeline_encode doubles.registry doubles.array_of_bytes
                (Some ["reversal"; "header"]) (Some "pack")
                doubles.one16 doubles.spec_one16 []) as [r log] eqn:Hrun.
    destruct r as [b|e]; [|vm_compute in Hrun; discriminate].
    exact (proj1 (Hpipe (Some "pack") b log Hrun)).
Defined.

(** Four raw bytes read as two 16-bit integers: relabelled, not
    converted. *)
Lemma dtype_reinterpreted_witness :
  decompressed doubles.registry None [x01; x00; x02; x00] []
  = (Ok (Buffer.as_array_like [x01; x00; x02; x00]), [])
  /\ V2Compressor.decode_single doubles.registry None
       (Some [x01; x00; x02; x00]) (ArraySpec.mk [2] np.int16 np.C) []
     = (Ok (Some (np.fresh np.int16 [2] np.C [x01; x00; x02; x00])), []).
Proof.
  split; [reflexivity|].
  destruct (dtype_reinterpreted doubles.registry None [x01; x00; x02; x00]
              (ArraySpec.mk [2] np.int16 np.C) [] []
              (Buffer.as_array_like [x01; x00; x02; x00]) eq_refl)
    as (_ & Hview).
  destruct (Hview ltac:(discriminate)) as (Hok & _).
  exact (proj1 (Hok (np.fresh np.int16 [2] np.C [x01; x00; x02; x00])
                    eq_refl)).
Defined.

(** Four flat bytes reshaped column-major into a 2 by 2 array, with an
    empty filter list. *)
Lemma shape_reconciled_witness :
  unfiltered doubles.registry (Some [])
    (Buffer.as_array_like [x00; x01; x02; x03]) []
  = (Ok (numcodecs.Array (Buffer.as_array_like [x00; x01; x02; x03])), [])
  /\ V2Filters.decode_single doubles.registry (Some [])
       (Buffer.as_array_like [x00; x01; x02; x03])
       (ArraySpec.mk [2; 2] np.int8 np.F) []
     = (Ok (np.fresh np.int8 [2; 2] np.F [x00; x01; x02; x03]), []).
Proof.
  split; [reflexivity|].
  destruct (shape_reconciled doubles.registry (Some [])
              (Buffer.as_array_like [x00; x01; x02; x03])
              (ArraySpec.mk [2; 2] np.int8 np.F) [] []
              (Buffer.as_array_like [x00; x01; x02; x03]) eq_refl)
    as (_ & Hre & _).
  destruct (Hre ltac:(discriminate)) as (Hrun & _).
  exact Hrun.
Defined.

(** The strided window [window22] with and without a compressor. *)
Lemma noncontiguous_encode_witness :
  np.c_contiguous doubles.window22 = false
  /\ np.f_contiguous doubles.window22 = false
  /\ V2Compressor.encode_single doubles.registry (Some "pack")
       doubles.window22 doubles.spec_window22 []
     = V2Compressor.encode_single doubles.registry (Some "pack")
         (np.copy_A doubles.window22) doubles.spec_window22 []
  /\ V2Compressor.encode_single doubles.registry None
       doubles.window22 doubles.spec_window22 []
     = (Ok [x00; x02; x08; x0a], []).
Proof.
  split; [reflexivity|]. split; [reflexivity|]. split.
  - exact (proj1 (noncontiguous_encode doubles.registry (Some "pack")
                    doubles.window22 doubles.spec_window22 []
                    eq_refl eq_refl)).
  - exact (proj1 (proj2 (proj2
             (noncontiguous_encode doubles.registry None
                doubles.window22 doubles.spec_window22 []
                eq_refl eq_refl))) eq_refl).
Defined.

(** The concrete scenario: the 4 by 4 row-major array of the floats
    0.0 .. 15.0 encodes to its 64 bytes and decodes back to itself. *)
Lemma passthrough_witness :
  conforms doubles.ramp44 doubles.spec_ramp44
  /\ pipeline_encode doubles.registry doubles.array_of_bytes (Some []) None
       doubles.ramp44 doubles.spec_ramp44 []
     = (Ok (concat doubles.floats_0_15), [])
  /\ List.length (concat doubles.floats_0_15) = 64
  /\ exists z,
      pipeline_decode doubles.registry (Some []) None
        (Some (concat doubles.floats_0_15)) doubles.spec_ramp44 []
      = (Ok (Some z), [])
      /\ np.equiv z doubles.ramp44 /\ np.shape z = [4; 4]
      /\ z = doubles.ramp44.
Proof.
  assert (Hc : conforms doubles.ramp44 doubles.spec_ramp44)
    by (split; reflexivity).
  destruct (passthrough doubles.registry doubles.array_of_bytes
              doubles.ramp44 doubles.spec_ramp44)
    as (Henc & Hback).
  destruct (Hback Hc) as (z & Hdec & Hequiv & Hshape).
  split; [exact Hc|]. split; [exact Henc|]. split; [reflexivity|].
  exists z. split; [exact Hdec|]. split; [exact Hequiv|].
  split; [exact Hshape|].
  vm_compute in Hdec. now injection Hdec as <-.
Defined.

(** Three stored bytes cannot be two 16-bit integers, and four elements
    cannot fill a 3 by 2 array: both calls fail. *)
Lemma incompatible_bytes_rejected_witness :
  decompressed doubles.registry None [x00; x01; x02] []
  = (Ok (Buffer.as_array_like [x00; x01; x02]), [])
  /\ unfiltered doubles.registry (Some [])
       (Buffer.as_array_like [x00; x01; x02; x03]) []
     = (Ok (numcodecs.Array (Buffer.as_array_like [x00; x01; x02; x03])),
        [])
  /\ V2Compressor.decode_single doubles.registry None
       (Some [x00; x01; x02]) (ArraySpec.mk [3; 2] np.int16 np.C) []
     = (Err ValueError, [])
  /\ V2Filters.decode_single doubles.registry (Some [])
       (Buffer.as_array_like [x00; x01; x02; x03])
       (ArraySpec.mk [3; 2] np.int16 np.C) []
     = (Err ValueError, []).
Proof.
  split; [reflexivity|]. split; [reflexivity|].
  destruct (incompatible_bytes_rejected doubles.registry
              None [x00; x01; x02] (ArraySpec.mk [3; 2] np.int16 np.C)
              [] [] (Buffer.as_array_like [x00; x01; x02])
              (Some []) (Buffer.as_array_like [x00; x01; x02; x03])
              [] [] (Buffer.as_array_like [x00; x01; x02; x03])
              eq_refl eq_refl)
    as ((Hview & _) & (Hreshape & _)).
  split.
  - apply Hview. discriminate.
  - apply Hreshape. discriminate.
Defined.

Open Scope list_scope.

(** * Further properties of the two stages *)

Section Stages.

Context {config : Type}.
Variable get_codec : config -> result numcodecs.Codec.
Variable array_of_bytes : list byte -> result np.ndarray.


(** The compressor stage applied in turn to what it encoded. *)
Lemma compressor_encode_invertible (compressor : option config)
    (a : np.ndarray) (spec : ArraySpec.t) :
  compressor_invertible get_codec compressor a ->
  exists b log raw log',
    V2Compressor.encode_single get_codec compressor a spec [] = (Ok b, log)
    /\ decompressed get_codec compressor b [] = (Ok raw, log')
    /\ flat_buffer raw
    /\ numcodecs.ensure_bytes raw = numcodecs.ensure_bytes a.
Proof.
  destruct compressor as [cfg|]; simpl.
  - intros (c & e & raw & Hget & He & Hd & Hflat & Hbytes).
    unfold Buffer.from_bytes in Hd.
    exists (numcodecs.ensure_bytes e). eexists.
    exists (numcodecs.ensure_ndarray raw). eexists.
    split; [|split; [|split]].
    + unfold V2Compressor.encode_single, NDBuffer.as_numpy_array, bind,
        numcodecs_get_codec, to_thread, ret, Buffer.from_bytes.
      rewrite Hget, He. reflexivity.
    + unfold decompressed, bind, numcodecs_get_codec, to_thread, ret.
      rewrite Hget, Hd. reflexivity.
    + exact Hflat.
    + now rewrite ensure_bytes_ensure_ndarray.
  - intros _. exists (numcodecs.ensure_bytes a), [].
    exists (Buffer.as_array_like (numcodecs.ensure_bytes a)), [].
    split; [reflexivity|]. split; [reflexivity|].
    split; [apply as_array_like_flat | apply ensure_bytes_as_array_like].
Qed.

(** X2.  The compressor stage on its own: for a chunk of element type
    [spec.dtype] and a compressor that is an inverse pair on it,
    [V2Compressor.decode_single] gives back the chunk flattened in its
    memory order: the element type and the bytes are those of the chunk,
    the shape is not restored. *)
Theorem compressor_stage_roundtrip (compressor : option config)
    (a : np.ndarray) (spec : ArraySpec.t) :
  np.arr_dtype a = ArraySpec.dtype spec ->
  compressor_invertible get_codec compressor a ->
  exists b log,
    V2Compressor.encode_single get_codec compressor a spec [] = (Ok b, log)
    /\ exists v log',
        V2Compressor.decode_single get_codec compressor (Some b) spec []
        = (Ok (Some v), log')
        /\ np.equiv v (np.ravel a (np.any_order a))
        /\ np.shape v = [np.size a].
Proof.
  intros Hdt Hinv.
  destruct (compressor_encode_invertible compressor a spec Hinv)
    as (b & log & raw & log' & Henc & Hraw & Hflat & Hbytes).
  exists b, log. split; [exact Henc|].
  assert (Hm : np.nbytes raw mod np.itemsize (ArraySpec.dtype spec) = 0).
  { rewrite <- length_ensure_bytes, Hbytes, length_ensure_bytes.
    rewrite nbytes_eq, Hdt. apply Nat.Div0.mod_mul. }
  destruct (compressor_decode_flat get_codec compressor b spec raw [] log'
              Hraw Hflat Hm) as (v & Hv & Hvd & Hvflat & Hvbytes).
  exists v, log'. split; [exact Hv|].
  assert (Heq : np.equiv v (np.ravel a (np.any_order a))).
  { apply flat_same_bytes_equiv; try assumption; try reflexivity.
    - simpl. congruence.
    - rewrite Hvbytes, Hbytes. symmetry. apply ensure_bytes_ravel. }
  split; [exact Heq|]. now destruct Heq as (_ & -> & _).
Qed.

End Stages.

Section Decoding.

Context {config : Type}.
Variable get_codec : config -> result numcodecs.Codec.
Variable array_of_bytes : list byte -> result np.ndarray.

(** X6.  "No data" comes out of decoding only when it went in: stored bytes,
    even none at all, never decode to the sentinel, in the compressor
    stage and in the pipeline alike. *)
Theorem sentinel_only_from_sentinel (filters : option (list config))
    (compressor : option config) (chunk_bytes : option Buffer.t)
    (spec : ArraySpec.t) (log : list (event config)) :
  (forall r log',
     V2Compressor.decode_single get_codec compressor chunk_bytes spec log
     = (Ok r, log') ->
     (r = None <-> chunk_bytes = None))
  /\ (forall r log',
        pipeline_decode get_codec filters compressor chunk_bytes spec log
        = (Ok r, log') ->
        (r = None <-> chunk_bytes = None)).
Proof.
  assert (Hstage : forall r log',
            V2Compressor.decode_single get_codec compressor chunk_bytes
                                       spec log = (Ok r, log') ->
            (r = None <-> chunk_bytes = None)).
  { intros r log' Hrun. destruct chunk_bytes as [b|].
    - rewrite compressor_decode_unfold in Hrun. apply bind_inv in Hrun.
      destruct Hrun as [(raw & log1 & _ & Hrest)|(e & _ & [=])].
      apply bind_inv in Hrest.
      destruct Hrest as [(v & log2 & _ & Hret)|(e & _ & [=])].
      injection Hret as <- _. split; discriminate.
    - injection Hrun as <- _. split; reflexivity. }
  split; [exact Hstage|].
  intros r log' Hrun. unfold pipeline_decode in Hrun. apply bind_inv in Hrun.
  destruct Hrun as [(d & log1 & Hdec & Hrest)|(e & _ & [=])].
  pose proof (Hstage d log1 Hdec) as Hd.
  destruct d as [a|].
  - apply bind_inv in Hrest.
    destruct Hrest as [(z & log2 & _ & Hret)|(e & _ & [=])].
    injection Hret as <- _. split; [discriminate|].
    intros H. apply Hd in H. discriminate.
  - injection Hrest as <- _. split; [intros _; now apply Hd | reflexivity].
Qed.

(** What a successful [V2Filters.decode_single] returns. *)
Lemma filters_decode_inv (filters : option (list config))
    (x : NDBuffer.t) (spec : ArraySpec.t) (log log' : list (event config))
    (z : NDBuffer.t) :
  V2Filters.decode_single get_codec filters x spec log = (Ok z, log') ->
  exists y : np.ndarray,
    unfiltered get_codec filters x log = (Ok (numcodecs.Array y), log')
    /\ ((np.shape y = ArraySpec.shape spec /\ z = y)
        \/ (np.size y = np.prod (ArraySpec.shape spec)
            /\ z = np.fresh (np.arr_dtype y) (ArraySpec.shape spec)
                     (ArraySpec.order spec)
                     (np.tobytes y (ArraySpec.order spec)))).
Proof.
  intros Hrun.
  destruct (unfiltered get_codec filters x log) as [r log1] eqn:Hun.
  rewrite (filters_decode_run get_codec _ _ _ _ _ _ Hun) in Hrun.
  destruct r as [[b|y]|e]; try discriminate.
  injection Hrun as Hrec <-.
  exists y. split; [reflexivity|]. unfold reconciled in Hrec.
  destruct (shape_eqb (np.shape y) (ArraySpec.shape spec)) eqn:Hb.
  - injection Hrec as <-. apply shape_eqb_eq in Hb. now left.
  - unfold np.reshape in Hrec.
    destruct (Nat.eqb_spec (np.size y) (np.prod (ArraySpec.shape spec)))
      as [Hsz|]; [|discriminate].
    injection Hrec as <-. now right.
Qed.

(** What a successful [V2Compressor.decode_single] returns. *)
Lemma compressor_decode_inv (compressor : option config) (b : Buffer.t)
    (spec : ArraySpec.t) (log log' : list (event config)) (v : NDBuffer.t) :
  V2Compressor.decode_single get_codec compressor (Some b) spec log
  = (Ok (Some v), log') ->
  exists raw,
    decompressed get_codec compressor b log = (Ok raw, log')
    /\ ((np.arr_dtype raw = ArraySpec.dtype spec /\ v = raw)
        \/ np.view raw (ArraySpec.dtype spec) = Ok v).
Proof.
  intros Hrun. rewrite compressor_decode_unfold in Hrun.
  apply bind_inv in Hrun.
  destruct Hrun as [(raw & log1 & Hraw & Hrest)|(e & _ & [=])].
  apply bind_inv in Hrest.
  destruct Hrest as [(w & log2 & Hrec & Hret)|(e & _ & [=])].
  injection Hret as <- <-.
  pose proof (reconcile_keeps_log _ _ _ _ _ _ Hrec) as ->.
  exists raw. split; [exact Hraw|].
  destruct (String.eqb (np.str (np.arr_dtype raw))
                       (np.str (ArraySpec.dtype spec))) eqn:Hb;
    simpl in Hrec.
  - injection Hrec as <-. apply str_eqb_eq in Hb. now left.
  - unfold lift in Hrec. injection Hrec as Hrec. now right.
Qed.

(** X7.  A successful [V2Filters.decode_single] always returns an array of
    shape [spec.shape], holding, in order [spec.order], the elements the
    inverse filters left, with their element type: the stage reconciles
    the shape and nothing else. *)
Theorem filters_decode_postcondition (filters : option (list config))
    (x : NDBuffer.t) (spec : ArraySpec.t) (log log' : list (event config))
    (z : NDBuffer.t) :
  V2Filters.decode_single get_codec filters x spec log = (Ok z, log') ->
  np.shape z = ArraySpec.shape spec
  /\ exists y : np.ndarray,
      unfiltered get_codec filters x log = (Ok (numcodecs.Array y), log')
      /\ np.arr_dtype z = np.arr_dtype y
      /\ np.size z = np.size y
      /\ np.elements (ArraySpec.order spec) z
         = np.elements (ArraySpec.order spec) y.
Proof.
  intros Hrun.
  destruct (filters_decode_inv _ _ _ _ _ _ Hrun)
    as (y & Hun & [(Hsh & ->)|(Hsz & ->)]).
  - split; [exact Hsh|]. exists y. now repeat split.
  - split; [reflexivity|]. exists y. split; [exact Hun|].
    split; [reflexivity|]. split; [now rewrite Hsz|].
    now apply elements_fresh_tobytes.
Qed.

(** X8.  The pipeline inherits it: whatever the transforms do, a chunk that
    decodes has shape [spec.shape]; without filters it also has element
    type [spec.dtype] and exactly the bytes the compressor stage
    obtained. *)
Theorem pipeline_decode_postcondition (filters : option (list config))
    (compressor : option config) (b : Buffer.t)
    (spec : ArraySpec.t) (log log' : list (event config)) (z : NDBuffer.t) :
  pipeline_decode get_codec filters compressor (Some b) spec log
  = (Ok (Some z), log') ->
  np.shape z = ArraySpec.shape spec
  /\ ((filters = None \/ filters = Some []) ->
      np.arr_dtype z = ArraySpec.dtype spec
      /\ exists raw,
          decompressed get_codec compressor b log = (Ok raw, log')
          /\ np.nbytes z = np.nbytes raw).
Proof.
  intros Hrun. unfold pipeline_decode in Hrun. apply bind_inv in Hrun.
  destruct Hrun as [(d & log1 & Hdec & Hrest)|(e & _ & [=])].
  destruct d as [a|]; [|discriminate].
  apply bind_inv in Hrest.
  destruct Hrest as [(w & log2 & Hf & Hret)|(e & _ & [=])].
  injection Hret as <- <-.
  destruct (filters_decode_inv _ _ _ _ _ _ Hf) as (y & Hun & Hz).
  split.
  { destruct Hz as [(Hsh & ->)|(_ & ->)]; [exact Hsh|reflexivity]. }
  intros Hnone.
  assert (Hy : y = a /\ log2 = log1).
  { destruct Hnone as [-> | ->]; simpl in Hun;
      unfold ret, NDBuffer.as_numpy_array in Hun;
      injection Hun as <- <-; now split. }
  destruct Hy as (-> & ->).
  destruct (compressor_decode_inv _ _ _ _ _ _ Hdec) as (raw & Hraw & Ha).
  assert (Had : np.arr_dtype a = ArraySpec.dtype spec
                /\ np.nbytes a = np.nbytes raw).
  { destruct Ha as [(Hd & ->)|Hv]; [now split|].
    destruct (view_relabels _ _ _ Hv) as (Hd & _ & _ & Hn & _).
    now split. }
  destruct Had as (Had & Han).
  assert (Hzd : np.arr_dtype w = np.arr_dtype a /\ np.nbytes w = np.nbytes a).
  { destruct Hz as [(_ & ->)|(Hsz & ->)]; [now split|].
    split; [reflexivity|]. rewrite !nbytes_eq. simpl.
    unfold np.size in Hsz. now rewrite Hsz. }
  destruct Hzd as (Hzd & Hzn).
  split; [congruence|]. exists raw. split; [exact Hraw|congruence].
Qed.

End Decoding.

Section Raw.

Context {config : Type}.
Variable get_codec : config -> result numcodecs.Codec.
Variable array_of_bytes : list byte -> result np.ndarray.

Lemma tobytes_flat (a : np.ndarray) (o : np.order) :
  np.ndim a = 1 -> np.tobytes a o = numcodecs.ensure_bytes a.
Proof.
  intros H. rewrite (ensure_bytes_flat a H). unfold np.tobytes.
  now rewrite (elements_flat o a H).
Qed.

Lemma flat_size (a : np.ndarray) :
  np.ndim a = 1 -> np.shape a = [np.size a].
Proof.
  unfold np.ndim, np.size. intros H.
  destruct (np.shape a) as [|n [|? ?]]; try discriminate.
  simpl. now rewrite Nat.mul_1_r.
Qed.

(** Stored without filters or compressor, a chunk is its bytes. *)
Lemma raw_encode (chunk : np.ndarray) (spec : ArraySpec.t) :
  pipeline_encode get_codec array_of_bytes (Some []) None chunk spec []
  = (Ok (np.tobytes chunk (ArraySpec.order spec)), []).
Proof.
  unfold pipeline_encode, V2Filters.encode_single,
    V2Compressor.encode_single, NDBuffer.as_numpy_array,
    NDBuffer.from_numpy_array, Buffer.from_bytes.
  simpl. unfold bind, ret. now rewrite ensure_bytes_ravel.
Qed.

(** X4.  Without filters or compressor, stored bytes decode exactly when
    their number is the element count of [spec.shape] times the item size
    of [spec.dtype]: then the result has that shape and element type and
    its byte image in order [spec.order] is the stored bytes, with no
    transform called; otherwise decoding raises [ValueError]. *)
Theorem raw_decode_criterion (b : Buffer.t) (spec : ArraySpec.t) :
  (List.length b
   = np.prod (ArraySpec.shape spec) * np.itemsize (ArraySpec.dtype spec) ->
   exists z,
     pipeline_decode get_codec (Some []) None (Some b) spec []
     = (Ok (Some z), [])
     /\ np.shape z = ArraySpec.shape spec
     /\ np.arr_dtype z = ArraySpec.dtype spec
     /\ np.tobytes z (ArraySpec.order spec) = b)
  /\ (List.length b
      <> np.prod (ArraySpec.shape spec) * np.itemsize (ArraySpec.dtype spec) ->
      pipeline_decode get_codec (Some []) None (Some b) spec []
      = (Err ValueError, [])).
Proof.
  pose proof (itemsize_pos (ArraySpec.dtype spec)) as Hpos.
  assert (Hnb : np.nbytes (Buffer.as_array_like b) = List.length b).
  { now rewrite <- length_ensure_bytes, ensure_bytes_as_array_like. }
  (* the filter stage on a flat array [v] of [n] items *)
  assert (Hstage : forall v,
            np.ndim v = 1 ->
            V2Filters.decode_single get_codec (Some []) v spec []
            = (if (np.size v =? np.prod (ArraySpec.shape spec))%nat
               then Ok (if shape_eqb (np.shape v) (ArraySpec.shape spec)
                        then v
                        else np.fresh (np.arr_dtype v) (ArraySpec.shape spec)
                               (ArraySpec.order spec)
                               (np.tobytes v (ArraySpec.order spec)))
               else Err ValueError, [] : list (event config))).
  { intros v Hv.
    rewrite (filters_decode_run get_codec (Some []) v spec [] []
               (Ok (numcodecs.Array v)) eq_refl).
    unfold reconciled.
    destruct (shape_eqb (np.shape v) (ArraySpec.shape spec)) eqn:Hb.
    - apply shape_eqb_eq in Hb. unfold np.size. rewrite Hb.
      now rewrite Nat.eqb_refl.
    - unfold np.reshape. now destruct (np.size v =? _)%nat. }
  destruct (Nat.eq_dec (List.length b mod np.itemsize (ArraySpec.dtype spec)) 0)
    as [Hm|Hm].
  - (* the bytes can be relabelled *)
    rewrite <- Hnb in Hm.
    destruct (compressor_decode_flat get_codec None b spec
                (Buffer.as_array_like b) [] [] eq_refl
                (as_array_like_flat b) Hm)
      as (v & Hv & Hvd & Hvflat & Hvbytes).
    rewrite ensure_bytes_as_array_like in Hvbytes.
    assert (Hlen : List.length b
                   = np.size v * np.itemsize (ArraySpec.dtype spec)).
    { now rewrite <- Hvbytes, length_ensure_bytes, nbytes_eq, Hvd. }
    unfold pipeline_decode. rewrite (bind_ok _ _ _ _ _ Hv).
    unfold bind. rewrite (Hstage v Hvflat).
    split.
    + intros Hb. assert (Hsz : np.size v = np.prod (ArraySpec.shape spec))
        by nia.
      rewrite Hsz, Nat.eqb_refl. eexists. split; [reflexivity|].
      destruct (shape_eqb (np.shape v) (ArraySpec.shape spec)) eqn:Hs.
      * apply shape_eqb_eq in Hs. repeat split; try assumption.
        now rewrite tobytes_flat.
      * repeat split; try assumption.
        rewrite tobytes_fresh by (now rewrite Hsz).
        now rewrite tobytes_flat.
    + intros Hb.
      destruct (Nat.eqb_spec (np.size v) (np.prod (ArraySpec.shape spec)))
        as [Hsz|_]; [|reflexivity].
      exfalso. apply Hb. now rewrite Hlen, Hsz.
  - (* the bytes cannot be relabelled *)
    split.
    + intros Hb. exfalso. apply Hm. rewrite Hb. apply Nat.Div0.mod_mul.
    + intros _. unfold pipeline_decode.
      rewrite compressor_decode_unfold.
      assert (Hraw : decompressed get_codec None b []
                     = (Ok (Buffer.as_array_like b), []))
        by reflexivity.
      unfold bind at 1. rewrite (bind_ok _ _ _ _ _ Hraw).
      unfold bind, lift, ret.
      destruct (String.eqb _ _) eqn:Heq; simpl.
      * exfalso. apply Hm. apply str_eqb_eq in Heq.
        rewrite <- Heq.
        change (np.itemsize (np.arr_dtype (Buffer.as_array_like b))) with 1.
        apply Nat.mod_1_r.
      * rewrite view_incompatible by (now rewrite Hnb). reflexivity.
Qed.

End Raw.

Section More.

Context {config : Type}.
Variable get_codec : config -> result numcodecs.Codec.
Variable array_of_bytes : list byte -> result np.ndarray.

(** X5.  Without filters or compressor, encoding what was decoded gives the
    stored bytes back. *)
Theorem raw_bytes_roundtrip (b : Buffer.t) (spec : ArraySpec.t)
    (z : NDBuffer.t) (log : list (event config)) :
  pipeline_decode get_codec (Some []) None (Some b) spec []
  = (Ok (Some z), log) ->
  pipeline_encode get_codec array_of_bytes (Some []) None z spec []
  = (Ok b, []).
Proof.
  intros Hrun. rewrite raw_encode.
  unfold pipeline_decode in Hrun. apply bind_inv in Hrun.
  destruct Hrun as [(d & log1 & Hdec & Hrest)|(e & _ & [=])].
  destruct d as [a|]; [|discriminate].
  apply bind_inv in Hrest.
  destruct Hrest as [(w & log2 & Hf & Hret)|(e & _ & [=])].
  injection Hret as <- _.
  destruct (compressor_decode_inv _ _ _ _ _ _ _ Hdec) as (raw & Hraw & Ha).
  injection Hraw as <- _.
  unfold numcodecs.ensure_ndarray in Ha.
  (* [a] is a flat array holding the stored bytes *)
  assert (Hab : np.ndim a = 1 /\ numcodecs.ensure_bytes a = b).
  { destruct Ha as [(_ & ->)|Hv].
    - split; [reflexivity | apply ensure_bytes_as_array_like].
    - destruct (Nat.eq_dec (np.nbytes (Buffer.as_array_like b)
                            mod np.itemsize (ArraySpec.dtype spec)) 0)
        as [Hm|Hm].
      + destruct (view_flat_buffer _ _ (as_array_like_flat b) Hm)
          as (v & Hv' & _ & Hflat & _ & _ & Hbytes).
        rewrite Hv in Hv'. injection Hv' as ->.
        split; [now apply flat_buffer_ndim|].
        now rewrite Hbytes, ensure_bytes_as_array_like.
      + rewrite (view_incompatible _ _ Hm) in Hv. discriminate. }
  destruct Hab as (Hflat & Hbytes).
  destruct (filters_decode_inv _ _ _ _ _ _ _ Hf) as (y & Hun & Hz).
  injection Hun as <- _. unfold NDBuffer.as_numpy_array in Hz.
  destruct Hz as [(_ & ->)|(Hsz & ->)].
  - rewrite tobytes_flat by assumption. now rewrite Hbytes.
  - rewrite tobytes_fresh by (now rewrite Hsz).
    rewrite tobytes_flat by assumption. now rewrite Hbytes.
Qed.

(** X3.  With no filters, every compressor that is an inverse pair round-trips
    every conforming chunk: the byte length of a raveled chunk always
    suits its own element type. *)
Theorem compressor_only_roundtrip (compressor : option config)
    (chunk : np.ndarray) (spec : ArraySpec.t) :
  conforms chunk spec ->
  compressor_invertible get_codec compressor
    (np.ravel chunk (ArraySpec.order spec)) ->
  exists b log,
    pipeline_encode get_codec array_of_bytes (Some []) compressor chunk spec []
    = (Ok b, log)
    /\ exists z log',
        pipeline_decode get_codec (Some []) compressor (Some b) spec []
        = (Ok (Some z), log')
        /\ np.equiv z chunk.
Proof.
  intros (Hsh & Hdt) Hinv.
  destruct (compressor_encode_invertible get_codec compressor _ spec Hinv)
    as (b & log & raw & log' & Henc & Hraw & Hflat & Hbytes).
  exists b, log. split; [exact Henc|].
  assert (Hm : np.nbytes raw mod np.itemsize (ArraySpec.dtype spec) = 0).
  { rewrite <- length_ensure_bytes, Hbytes, length_ensure_bytes.
    rewrite nbytes_ravel, nbytes_eq, Hdt. apply Nat.Div0.mod_mul. }
  destruct (compressor_decode_flat get_codec compressor b spec raw [] log'
              Hraw Hflat Hm) as (v & Hv & Hvd & Hvflat & Hvbytes).
  assert (Hvx : np.equiv v (np.ravel chunk (ArraySpec.order spec))).
  { apply flat_same_bytes_equiv; try assumption; try reflexivity.
    - simpl. congruence.
    - congruence. }
  destruct (reconciled_raveled v chunk spec Hsh Hvx) as (z & Hz & Hzc).
  exists z, log'. split; [|exact Hzc].
  unfold pipeline_decode. rewrite (bind_ok _ _ _ _ _ Hv).
  unfold bind.
  rewrite (filters_decode_run get_codec (Some []) v spec log' log'
             (Ok (numcodecs.Array v)) eq_refl).
  now rewrite Hz.
Qed.


(** X10.  The forward operation of the compressor is always handed a
    contiguous array equivalent to the chunk: the chunk itself when it is
    C or Fortran contiguous, its contiguous copy otherwise; it is resolved
    once and called once. *)
Theorem compressor_receives_contiguous (cfg : config) (c : numcodecs.Codec)
    (a : NDBuffer.t) (spec : ArraySpec.t) (log : list (event config)) :
  get_codec cfg = Ok c ->
  exists a' : np.ndarray,
    V2Compressor.encode_single get_codec (Some cfg) a spec log
    = (match numcodecs.encode c a' with
       | Ok e => Ok (numcodecs.ensure_bytes e)
       | Err x => Err x
       end,
       log ++ [Resolved cfg; Offloaded cfg Forward a' (numcodecs.encode c a')])
    /\ np.c_contiguous a' || np.f_contiguous a' = true
    /\ np.equiv a' a
    /\ (np.c_contiguous a || np.f_contiguous a = true -> a' = a).
Proof.
  intros Hget.
  assert (Hrun : forall a' : np.ndarray,
            (if negb (np.c_contiguous a) && negb (np.f_contiguous a)
             then np.copy_A a else a) = a' ->
            V2Compressor.encode_single get_codec (Some cfg) a spec log
            = (match numcodecs.encode c a' with
               | Ok e => Ok (numcodecs.ensure_bytes e)
               | Err x => Err x
               end,
               log ++ [Resolved cfg;
                       Offloaded cfg Forward a' (numcodecs.encode c a')])).
  { intros a' <-.
    unfold V2Compressor.encode_single, NDBuffer.as_numpy_array, bind,
      numcodecs_get_codec, to_thread, ret, Buffer.from_bytes.
    rewrite Hget, <- app_assoc.
    now destruct (numcodecs.encode c _). }
  destruct (np.c_contiguous a) eqn:Hc; [|destruct (np.f_contiguous a) eqn:Hf].
  - exists a. split; [now apply Hrun|]. rewrite Hc.
    repeat split.
  - exists a. split; [now apply Hrun|]. rewrite Hc, Hf.
    repeat split.
  - exists (np.copy_A a). split; [now apply Hrun|].
    split; [|split; [apply copy_A_equiv | discriminate]].
    rewrite (copy_A_noncontiguous _ Hf), c_contiguous_fresh_C. reflexivity.
Qed.

End More.

Section Failures.

Context {config : Type}.
Variable get_codec : config -> result numcodecs.Codec.
Variable array_of_bytes : list byte -> result np.ndarray.

(** A step of a filter loop that fails: the filter does not resolve, or
    its operation raises. *)
Lemma filter_step_fails (d : direction)
    (op : numcodecs.Codec ->
          numcodecs.buffer_like -> result numcodecs.buffer_like)
    (f : config) (y : numcodecs.buffer_like) (e : exn)
    (log : list (event config)) :
  (get_codec f = Err e
   \/ exists c, get_codec f = Ok c /\ op c y = Err e) ->
  exists evs,
    filter_step get_codec d op f y log = (Err e, log ++ evs)
    /\ (evs = [Resolved f]
        \/ evs = [Resolved f; Offloaded f d y (Err e)]).
Proof.
  unfold filter_step, bind, numcodecs_get_codec, to_thread.
  intros [Hget|(c & Hget & Hop)]; rewrite Hget.
  - exists [Resolved f]. split; [reflexivity | now left].
  - rewrite Hop. exists [Resolved f; Offloaded f d y (Err e)].
    rewrite <- app_assoc. split; [reflexivity | now right].
Qed.

Lemma filter_loop_stops (d : direction)
    (op : numcodecs.Codec ->
          numcodecs.buffer_like -> result numcodecs.buffer_like)
    (pre post : list config) (f : config) (x y : numcodecs.buffer_like)
    (e : exn) (log log1 log2 : list (event config)) :
  for_each pre (filter_step get_codec d op) x log = (Ok y, log1) ->
  filter_step get_codec d op f y log1 = (Err e, log2) ->
  for_each (pre ++ f :: post) (filter_step get_codec d op) x log
  = (Err e, log2).
Proof.
  intros Hpre Hf. rewrite for_each_app, (bind_ok _ _ _ _ _ Hpre).
  simpl. now rewrite (bind_err _ _ _ _ _ Hf).
Qed.

(** X12.  Encoding fails fast.  When the filters before [f] have run and
    left [y] (an array or [bytes]: what [V2Filters.encode_single] wraps
    and returns when the list stops there), and [f] cannot be resolved, or
    its forward operation raises on [y], [V2Filters.encode_single] raises
    that very exception; the filters after [f] are neither resolved nor
    called, and [f] is tried once. *)
Theorem failing_filter_stops_encode (pre post : list config) (f : config)
    (chunk : NDBuffer.t) (spec : ArraySpec.t) (y : numcodecs.buffer_like)
    (e : exn) (log1 : list (event config)) :
  filtered get_codec (Some pre) chunk spec [] = (Ok y, log1) ->
  (get_codec f = Err e
   \/ exists c, get_codec f = Ok c /\ numcodecs.encode c y = Err e) ->
  V2Filters.encode_single get_codec array_of_bytes (Some pre) chunk spec []
  = (wrapped array_of_bytes y, log1)
  /\ exists evs,
      V2Filters.encode_single get_codec array_of_bytes
                              (Some (pre ++ f :: post)) chunk spec []
      = (Err e, log1 ++ evs)
      /\ (evs = [Resolved f]
          \/ evs = [Resolved f; Offloaded f Forward y (Err e)]).
Proof.
  intros Hpre Hfail. split.
  { now rewrite (filters_encode_run get_codec array_of_bytes _ _ _ _ _ _
                   Hpre). }
  destruct (filter_step_fails Forward numcodecs.encode f y e log1 Hfail)
    as (evs & Hstep & Hevs).
  exists evs. split; [|exact Hevs].
  assert (Hloop : filtered get_codec (Some (pre ++ f :: post)) chunk spec []
                  = (Err e, log1 ++ evs)).
  { exact (filter_loop_stops Forward numcodecs.encode pre post f _ _ _
             _ _ _ Hpre Hstep). }
  now rewrite (filters_encode_run get_codec array_of_bytes _ _ _ _ _ _ Hloop).
Qed.

(** X13.  Decoding fails fast as well, from the other end.  When the inverse
    filters of the list after [f] have run and left [y] (an array or
    [bytes]), and [f] cannot be resolved, or its inverse operation raises
    on [y], [V2Filters.decode_single] raises that very exception; the
    filters before [f] are neither resolved nor called, and the shape is
    not looked at. *)
Theorem failing_filter_stops_decode (pre post : list config) (f : config)
    (x : NDBuffer.t) (spec : ArraySpec.t) (y : numcodecs.buffer_like)
    (e : exn) (log log1 : list (event config)) :
  unfiltered get_codec (Some post) x log = (Ok y, log1) ->
  (get_codec f = Err e
   \/ exists c, get_codec f = Ok c /\ numcodecs.decode c y = Err e) ->
  exists evs,
    V2Filters.decode_single get_codec (Some (pre ++ f :: post)) x spec log
    = (Err e, log1 ++ evs)
    /\ (evs = [Resolved f]
        \/ evs = [Resolved f; Offloaded f Inverse y (Err e)]).
Proof.
  intros Hpost Hfail.
  destruct (filter_step_fails Inverse numcodecs.decode f y e log1 Hfail)
    as (evs & Hstep & Hevs).
  exists evs. split; [|exact Hevs].
  assert (Hun : unfiltered get_codec (Some (pre ++ f :: post)) x log
                = (Err e, log1 ++ evs)).
  { unfold unfiltered. rewrite rev_app_distr. simpl rev.
    rewrite <- app_assoc. simpl app.
    exact (filter_loop_stops Inverse numcodecs.decode (rev post) (rev pre) f
             _ _ _ _ _ _ Hpost Hstep). }
  now rewrite (filters_decode_run get_codec _ _ _ _ _ _ Hun).
Qed.

(** X16.  [bytes] has no shape.  When the inverse filters leave a
    [bytes] object (as the inverse of a compressor-like transform used as
    a filter does), [V2Filters.decode_single] raises [AttributeError] at
    the shape test, after the inverse filters have all been called; a
    successful call therefore always ends on an array. *)
Theorem bytes_result_has_no_shape (filters : option (list config))
    (x : NDBuffer.t) (spec : ArraySpec.t) (log log' : list (event config)) :
  (forall b,
     unfiltered get_codec filters x log = (Ok (numcodecs.Bytes b), log') ->
     V2Filters.decode_single get_codec filters x spec log
     = (Err AttributeError, log'))
  /\ (forall z,
        V2Filters.decode_single get_codec filters x spec log = (Ok z, log') ->
        exists y : np.ndarray,
          unfiltered get_codec filters x log = (Ok (numcodecs.Array y), log'))
  /\ (forall (compressor : option config) (chunk_bytes : Buffer.t)
             (v : NDBuffer.t) (b : list byte) (log0 : list (event config)),
        V2Compressor.decode_single get_codec compressor (Some chunk_bytes)
                                   spec log0 = (Ok (Some v), log) ->
        unfiltered get_codec filters v log = (Ok (numcodecs.Bytes b), log') ->
        pipeline_decode get_codec filters compressor (Some chunk_bytes)
                        spec log0
        = (Err AttributeError, log')).
Proof.
  split; [|split].
  - intros b Hun.
    now rewrite (filters_decode_run get_codec _ _ _ _ _ _ Hun).
  - intros z Hrun.
    destruct (unfiltered get_codec filters x log) as [r log1] eqn:Hun.
    rewrite (filters_decode_run get_codec _ _ _ _ _ _ Hun) in Hrun.
    destruct r as [[b|y]|e]; try discriminate.
    injection Hrun as _ <-. now exists y.
  - intros compressor chunk_bytes v b log0 Hv Hun.
    unfold pipeline_decode. rewrite (bind_ok _ _ _ _ _ Hv).
    unfold bind.
    now rewrite (filters_decode_run get_codec _ _ _ _ _ _ Hun).
Qed.

End Failures.

(** ** The byte image of a contiguous array is its memory *)

Lemma has_zero_prod (sh : list nat) :
  np.has_zero sh = true -> np.prod sh = 0.
Proof.
  induction sh as [|n sh IH]; simpl; [discriminate|].
  intros H. apply orb_true_iff in H. destruct H as [H|H].
  - destruct n; [reflexivity|discriminate].
  - rewrite (IH H). lia.
Qed.

Lemma tobytes_empty (a : np.ndarray) (o : np.order) :
  np.size a = 0 -> np.tobytes a o = [].
Proof.
  intros H. unfold np.tobytes.
  pose proof (length_elements o a) as Hl. rewrite H in Hl.
  now destruct (np.elements o a).
Qed.

Lemma image_contiguous (mem : list byte) (s : nat) (sh : list nat) :
  forall (st : list Z) (off : Z),
    List.length st = List.length sh ->
    np.contig_from (Z.of_nat s) (rev sh) (rev st) = true ->
    image mem s sh st off = np.read_bytes mem off (np.prod sh * s).
Proof.
  induction sh as [|n sh IH]; intros [|t st] off Hlen Hc; try discriminate.
  - simpl. now rewrite Nat.add_0_r.
  - simpl in Hlen. simpl rev in Hc.
    rewrite contig_from_app in Hc
      by (rewrite !length_rev; lia).
    apply andb_true_iff in Hc. destruct Hc as (Hin & Hlast).
    simpl image.
    rewrite (map_ext _ (fun i => np.read_bytes mem
                                   (off + Z.of_nat i * t) (np.prod sh * s)))
      by (intros i; apply IH; [lia | exact Hin]).
    simpl in Hlast. rewrite prod_rev in Hlast.
    change (np.prod (n :: sh)) with (n * np.prod sh).
    destruct (Nat.eqb_spec n 1) as [->|Hn].
    + simpl. rewrite app_nil_r, !Nat.add_0_r. f_equal. lia.
    + rewrite andb_true_r in Hlast. apply Z.eqb_eq in Hlast.
      rewrite <- Nat.mul_assoc, <- row_bytes.
      f_equal. apply map_ext. intros i. f_equal. lia.
Qed.

Lemma tobytes_C_contiguous (a : np.ndarray) :
  List.length (np.strides a) = np.ndim a ->
  np.c_contiguous a = true ->
  np.tobytes a np.C
  = np.read_bytes (np.data a) (np.offset a) (np.nbytes a).
Proof.
  intros Hwf Hc. unfold np.c_contiguous in Hc.
  apply orb_true_iff in Hc. destruct Hc as [Hz|Hc].
  - apply has_zero_prod in Hz. rewrite tobytes_empty by exact Hz.
    rewrite nbytes_eq, Hz. reflexivity.
  - rewrite (tobytes_image a Hwf). now apply image_contiguous.
Qed.

Lemma tobytes_F_contiguous (a : np.ndarray) :
  List.length (np.strides a) = np.ndim a ->
  np.f_contiguous a = true ->
  np.tobytes a np.F
  = np.read_bytes (np.data a) (np.offset a) (np.nbytes a).
Proof.
  intros Hwf Hf. unfold np.f_contiguous in Hf.
  apply orb_true_iff in Hf. destruct Hf as [Hz|Hf].
  - apply has_zero_prod in Hz. rewrite tobytes_empty by exact Hz.
    rewrite nbytes_eq, Hz. reflexivity.
  - unfold np.tobytes, np.elements, np.indices, np.indices_F.
    rewrite map_map.
    rewrite (map_ext_in _
               (fun idx => np.read_bytes (np.data a)
                             (np.offset a + np.dot idx (rev (np.strides a)))
                             (np.itemsize (np.arr_dtype a)))).
    + rewrite tobytes_image_gen
        by (rewrite !length_rev; exact Hwf).
      rewrite image_contiguous.
      * now rewrite prod_rev.
      * rewrite !length_rev. exact Hwf.
      * now rewrite !rev_involutive.
    + intros idx Hin. unfold np.item. do 2 f_equal.
      rewrite <- (rev_involutive (np.strides a)) at 1.
      apply dot_rev. rewrite length_rev.
      apply In_indices_C, Forall2_length in Hin.
      rewrite length_rev in Hin. unfold np.ndim in Hwf. lia.
Qed.

Section Stored.

Context {config : Type}.
Variable get_codec : config -> result numcodecs.Codec.
Variable array_of_bytes : list byte -> result np.ndarray.

(** X11.  Without a compressor, a well-formed array that is C or Fortran
    contiguous is stored as it lies in memory: the encoded bytes are the
    [nbytes] bytes of its memory block from its offset on, in memory
    order, row-major or column-major as the array is. *)
Theorem contiguous_chunk_stored_as_is (a : NDBuffer.t) (spec : ArraySpec.t)
    (log : list (event config)) :
  List.length (np.strides a) = np.ndim a ->
  np.c_contiguous a || np.f_contiguous a = true ->
  V2Compressor.encode_single get_codec None a spec log
  = (Ok (np.read_bytes (np.data a) (np.offset a) (np.nbytes a)), log).
Proof.
  intros Hwf Hcf.
  unfold V2Compressor.encode_single, NDBuffer.as_numpy_array, bind, ret,
    Buffer.from_bytes.
  do 2 f_equal. unfold numcodecs.ensure_bytes, np.any_order.
  destruct (np.c_contiguous a) eqn:Hc.
  - rewrite andb_false_r. apply tobytes_C_contiguous; assumption.
  - simpl in Hcf. rewrite Hcf. simpl.
    apply tobytes_F_contiguous; assumption.
Qed.

End Stored.

Section Layout.

Context {config : Type}.
Variable get_codec : config -> result numcodecs.Codec.
Variable array_of_bytes : list byte -> result np.ndarray.

Lemma ravel_equiv (a a' : np.ndarray) (o : np.order) :
  np.equiv a a' -> np.ravel a o = np.ravel a' o.
Proof.
  intros (Hd & Hs & He). unfold np.ravel, np.size, np.tobytes.
  rewrite Hd, Hs.
  now rewrite (elements_order_irrelevant np.C o a a' Hs He).
Qed.

(** X14.  The pipeline stores values, not layouts: two arrays with the same
    element type, shape and elements, however each lies in memory, are
    encoded by the same calls to the same bytes, for every filter list
    and compressor. *)
Theorem stored_bytes_ignore_layout (filters : option (list config))
    (compressor : option config) (a a' : NDBuffer.t) (spec : ArraySpec.t)
    (log : list (event config)) :
  np.equiv a a' ->
  V2Filters.encode_single get_codec array_of_bytes filters a spec log
  = V2Filters.encode_single get_codec array_of_bytes filters a' spec log
  /\ pipeline_encode get_codec array_of_bytes filters compressor a spec log
     = pipeline_encode get_codec array_of_bytes filters compressor a' spec log.
Proof.
  intros Heq.
  assert (Hf : V2Filters.encode_single get_codec array_of_bytes filters a
                                       spec log
               = V2Filters.encode_single get_codec array_of_bytes filters a'
                                         spec log).
  { unfold V2Filters.encode_single, NDBuffer.as_numpy_array.
    now rewrite (ravel_equiv a a' (ArraySpec.order spec) Heq). }
  split; [exact Hf|].
  unfold pipeline_encode, bind. now rewrite Hf.
Qed.

Lemma flat_buffer_f_contiguous (a : np.ndarray) :
  flat_buffer a -> np.f_contiguous a = true.
Proof.
  intros H. destruct (flat_buffer_inv a H) as (n & st & Hsh & Hst & Hc).
  unfold np.f_contiguous. rewrite Hsh, Hst. simpl.
  destruct n as [|[|n]]; [reflexivity|reflexivity|].
  destruct Hc as [Hc|[Hc|Hc]]; try discriminate.
  rewrite Hc, Z.eqb_refl. reflexivity.
Qed.

(** X15.  Without filters or compressor, a decoded chunk lies in memory in the
    order of its specification: C contiguous for row-major, Fortran
    contiguous for column-major. *)
Theorem decoded_layout_follows_order (b : Buffer.t) (spec : ArraySpec.t)
    (z : NDBuffer.t) (log : list (event config)) :
  pipeline_decode get_codec (Some []) None (Some b) spec []
  = (Ok (Some z), log) ->
  match ArraySpec.order spec with
  | np.C => np.c_contiguous z = true
  | np.F => np.f_contiguous z = true
  end.
Proof.
  intros Hrun. unfold pipeline_decode in Hrun. apply bind_inv in Hrun.
  destruct Hrun as [(d & log1 & Hdec & Hrest)|(e & _ & [=])].
  destruct d as [a|]; [|discriminate].
  apply bind_inv in Hrest.
  destruct Hrest as [(w & log2 & Hf & Hret)|(e & _ & [=])].
  injection Hret as <- _.
  destruct (compressor_decode_inv _ _ _ _ _ _ _ Hdec) as (raw & Hraw & Ha).
  injection Hraw as <- _.
  unfold numcodecs.ensure_ndarray in Ha.
  assert (Hflat : flat_buffer a).
  { destruct Ha as [(_ & ->)|Hv]; [apply as_array_like_flat|].
    destruct (Nat.eq_dec (np.nbytes (Buffer.as_array_like b)
                          mod np.itemsize (ArraySpec.dtype spec)) 0)
      as [Hm|Hm].
    - destruct (view_flat_buffer _ _ (as_array_like_flat b) Hm)
        as (v & Hv' & _ & Hfl & _).
      rewrite Hv in Hv'. now injection Hv' as ->.
    - rewrite (view_incompatible _ _ Hm) in Hv. discriminate. }
  destruct (filters_decode_inv _ _ _ _ _ _ _ Hf) as (y & Hun & Hz).
  injection Hun as <- _. unfold NDBuffer.as_numpy_array in Hz.
  destruct Hz as [(_ & ->)|(_ & ->)].
  - destruct (ArraySpec.order spec).
    + apply Hflat.
    + now apply flat_buffer_f_contiguous.
  - destruct (ArraySpec.order spec).
    + apply c_contiguous_fresh_C.
    + apply f_contiguous_fresh_F.
Qed.

End Layout.

(** ** The further properties at concrete inputs *)


(** The strided window through the byte-reversing compressor and back:
    four bytes, flat. *)
Lemma compressor_stage_roundtrip_witness :
  np.arr_dtype doubles.window22 = ArraySpec.dtype doubles.spec_window22
  /\ exists b log,
      V2Compressor.encode_single doubles.registry (Some "pack")
        doubles.window22 doubles.spec_window22 [] = (Ok b, log)
      /\ exists v log',
          V2Compressor.decode_single doubles.registry (Some "pack") (Some b)
            doubles.spec_window22 [] = (Ok (Some v), log')
          /\ np.equiv v (np.ravel doubles.window22
                           (np.any_order doubles.window22))
          /\ np.shape v = [4].
Proof.
  split; [reflexivity|].
  apply (compressor_stage_roundtrip doubles.registry (Some "pack")
           doubles.window22 doubles.spec_window22 eq_refl).
  simpl. eexists. eexists. eexists.
  split; [reflexivity|]. split; [reflexivity|]. split; [reflexivity|].
  split; [|reflexivity]. repeat split.
Defined.

(** [grid16], column-major, through the byte-reversing compressor. *)
Lemma compressor_only_roundtrip_witness :
  conforms doubles.grid16 doubles.spec_grid16
  /\ exists b log,
      pipeline_encode doubles.registry doubles.array_of_bytes (Some [])
        (Some "pack") doubles.grid16 doubles.spec_grid16 [] = (Ok b, log)
      /\ exists z log',
          pipeline_decode doubles.registry (Some []) (Some "pack") (Some b)
            doubles.spec_grid16 [] = (Ok (Some z), log')
          /\ np.equiv z doubles.grid16.
Proof.
  assert (Hc : conforms doubles.grid16 doubles.spec_grid16)
    by (split; reflexivity).
  split; [exact Hc|].
  apply (compressor_only_roundtrip doubles.registry doubles.array_of_bytes
           (Some "pack")
           doubles.grid16 doubles.spec_grid16 Hc).
  simpl. eexists. eexists. eexists.
  split; [reflexivity|]. split; [reflexivity|]. split; [reflexivity|].
  split; [|reflexivity]. repeat split.
Defined.

(** Four stored bytes are two 16-bit integers, and encode back to the
    four bytes. *)
Lemma raw_bytes_roundtrip_witness :
  pipeline_decode doubles.registry (Some []) None
    (Some [x01; x00; x02; x00]) (ArraySpec.mk [2] np.int16 np.C) []
  = (Ok (Some (np.fresh np.int16 [2] np.C [x01; x00; x02; x00])), [])
  /\ pipeline_encode doubles.registry doubles.array_of_bytes (Some []) None
       (np.fresh np.int16 [2] np.C [x01; x00; x02; x00])
       (ArraySpec.mk [2] np.int16 np.C) []
     = (Ok [x01; x00; x02; x00], []).
Proof.
  split; [reflexivity|].
  exact (raw_bytes_roundtrip doubles.registry doubles.array_of_bytes
           [x01; x00; x02; x00]
           (ArraySpec.mk [2] np.int16 np.C) _ [] eq_refl).
Defined.

(** Four flat bytes come out of the filter stage as a 2 by 2 array. *)
Lemma filters_decode_postcondition_witness :
  V2Filters.decode_single doubles.registry (Some [])
    (Buffer.as_array_like [x00; x01; x02; x03])
    (ArraySpec.mk [2; 2] np.int8 np.F) []
  = (Ok (np.fresh np.int8 [2; 2] np.F [x00; x01; x02; x03]), [])
  /\ np.shape (np.fresh np.int8 [2; 2] np.F [x00; x01; x02; x03]) = [2; 2].
Proof.
  split; [reflexivity|].
  exact (proj1 (filters_decode_postcondition doubles.registry (Some [])
                  (Buffer.as_array_like [x00; x01; x02; x03])
                  (ArraySpec.mk [2; 2] np.int8 np.F) [] [] _ eq_refl)).
Defined.

(** Eight stored bytes decode to a 2 by 2 array of 16-bit integers. *)
Lemma pipeline_decode_postcondition_witness :
  pipeline_decode doubles.registry (Some []) None
    (Some [x00; x00; x01; x00; x02; x00; x03; x00])
    (ArraySpec.mk [2; 2] np.int16 np.C) []
  = (Ok (Some (np.fresh np.int16 [2; 2] np.C
                 [x00; x00; x01; x00; x02; x00; x03; x00])), [])
  /\ np.shape (np.fresh np.int16 [2; 2] np.C
                 [x00; x00; x01; x00; x02; x00; x03; x00]) = [2; 2]
  /\ np.arr_dtype (np.fresh np.int16 [2; 2] np.C
                     [x00; x00; x01; x00; x02; x00; x03; x00]) = np.int16.
Proof.
  split; [reflexivity|].
  destruct (pipeline_decode_postcondition doubles.registry (Some []) None
              [x00; x00; x01; x00; x02; x00; x03; x00]
              (ArraySpec.mk [2; 2] np.int16 np.C) [] [] _ eq_refl)
    as (Hsh & Hdt).
  split; [exact Hsh|]. exact (proj1 (Hdt (or_intror eq_refl))).
Defined.


(** The strided window reaches the compressor as its contiguous copy. *)
Lemma compressor_receives_contiguous_witness :
  doubles.registry "pack" = Ok (doubles.reversal np.uint8)
  /\ exists a' : np.ndarray,
      snd (V2Compressor.encode_single doubles.registry (Some "pack")
             doubles.window22 doubles.spec_window22 [])
      = [Resolved "pack";
         Offloaded "pack" Forward a'
           (numcodecs.encode (doubles.reversal np.uint8) a')]
      /\ np.c_contiguous a' || np.f_contiguous a' = true
      /\ np.equiv a' doubles.window22.
Proof.
  split; [reflexivity|].
  destruct (compressor_receives_contiguous doubles.registry "pack"
              (doubles.reversal np.uint8) doubles.window22
              doubles.spec_window22 [] eq_refl)
    as (a' & Hrun & Hc & He & _).
  exists a'. rewrite Hrun. repeat split; assumption || apply He.
Defined.

(** A column-major 2 by 3 block of bytes is stored as it lies. *)
Lemma contiguous_chunk_stored_as_is_witness :
  np.c_contiguous (np.fresh np.int8 [2; 3] np.F
                     [x00; x01; x02; x03; x04; x05]) = false
  /\ np.f_contiguous (np.fresh np.int8 [2; 3] np.F
                        [x00; x01; x02; x03; x04; x05]) = true
  /\ V2Compressor.encode_single doubles.registry None
       (np.fresh np.int8 [2; 3] np.F [x00; x01; x02; x03; x04; x05])
       (ArraySpec.mk [2; 3] np.int8 np.F) []
     = (Ok [x00; x01; x02; x03; x04; x05], []).
Proof.
  split; [reflexivity|]. split; [reflexivity|].
  exact (contiguous_chunk_stored_as_is doubles.registry
           (np.fresh np.int8 [2; 3] np.F [x00; x01; x02; x03; x04; x05])
           (ArraySpec.mk [2; 3] np.int8 np.F) [] eq_refl eq_refl).
Defined.

(** A chain whose second filter is unknown: the first is called, the
    third is never looked up. *)
Lemma failing_filter_stops_encode_witness :
  filtered doubles.registry (Some ["reversal"])
    doubles.one16 doubles.spec_one16 []
  = (Ok (numcodecs.Array (Buffer.as_array_like [x00; x01])),
     [Resolved "reversal";
      Offloaded "reversal" Forward (np.ravel doubles.one16 np.C)
        (Ok (numcodecs.Array (Buffer.as_array_like [x00; x01])))])
  /\ V2Filters.encode_single doubles.registry doubles.array_of_bytes
       (Some ["reversal"]) doubles.one16 doubles.spec_one16 []
     = (Ok (Buffer.as_array_like [x00; x01]),
        [Resolved "reversal";
         Offloaded "reversal" Forward (np.ravel doubles.one16 np.C)
           (Ok (numcodecs.Array (Buffer.as_array_like [x00; x01])))])
  /\ doubles.registry "missing" = Err (Raised "codec not available")
  /\ V2Filters.encode_single doubles.registry doubles.array_of_bytes
       (Some ["reversal"; "missing"; "header"])
       doubles.one16 doubles.spec_one16 []
     = (Err (Raised "codec not available"),
        [Resolved "reversal";
         Offloaded "reversal" Forward (np.ravel doubles.one16 np.C)
           (Ok (numcodecs.Array (Buffer.as_array_like [x00; x01])));
         Resolved "missing"]).
Proof.
  split; [reflexivity|].
  destruct (failing_filter_stops_encode doubles.registry doubles.array_of_bytes
              ["reversal"] ["header"] "missing"
              doubles.one16 doubles.spec_one16
              (numcodecs.Array (Buffer.as_array_like [x00; x01]))
              (Raised "codec not available") _ eq_refl
              (or_introl eq_refl))
    as (Hshort & evs & Hrun & [-> | ->]).
  - split; [exact Hshort|]. split; [reflexivity|]. exact Hrun.
  - vm_compute in Hrun. discriminate.
Defined.

(** The same chain when decoding: the last filter is called, the unknown
    one stops the run, the first is never looked up. *)
Lemma failing_filter_stops_decode_witness :
  unfiltered doubles.registry (Some ["header"])
    (Buffer.as_array_like [x00; x00; x01]) []
  = (Ok (numcodecs.Array (np.fresh np.int16 [1] np.C [x00; x01])),
     [Resolved "header";
      Offloaded "header" Inverse (Buffer.as_array_like [x00; x00; x01])
        (Ok (numcodecs.Array (np.fresh np.int16 [1] np.C [x00; x01])))])
  /\ V2Filters.decode_single doubles.registry
       (Some ["reversal"; "missing"; "header"])
       (Buffer.as_array_like [x00; x00; x01]) doubles.spec_one16 []
     = (Err (Raised "codec not available"),
        [Resolved "header";
         Offloaded "header" Inverse (Buffer.as_array_like [x00; x00; x01])
           (Ok (numcodecs.Array (np.fresh np.int16 [1] np.C [x00; x01])));
         Resolved "missing"]).
Proof.
  split; [reflexivity|].
  destruct (failing_filter_stops_decode doubles.registry
              ["reversal"] ["header"] "missing"
              (Buffer.as_array_like [x00; x00; x01]) doubles.spec_one16
              (numcodecs.Array (np.fresh np.int16 [1] np.C [x00; x01]))
              (Raised "codec not available") [] _ eq_refl
              (or_introl eq_refl))
    as (evs & Hrun & [-> | ->]).
  - exact Hrun.
  - vm_compute in Hrun. discriminate.
Defined.

(** A transform returning [bytes], used as a filter: its inverse is
    called, and the shape test then fails. *)
Lemma bytes_result_has_no_shape_witness :
  unfiltered doubles.registry (Some ["plain"])
    (Buffer.as_array_like [x00; x01]) []
  = (Ok (numcodecs.Bytes [x00; x01]),
     [Resolved "plain";
      Offloaded "plain" Inverse (Buffer.as_array_like [x00; x01])
        (Ok (numcodecs.Bytes [x00; x01]))])
  /\ V2Filters.decode_single doubles.registry (Some ["plain"])
       (Buffer.as_array_like [x00; x01]) (ArraySpec.mk [2] np.int8 np.C) []
     = (Err AttributeError,
        [Resolved "plain";
         Offloaded "plain" Inverse (Buffer.as_array_like [x00; x01])
           (Ok (numcodecs.Bytes [x00; x01]))]).
Proof.
  split; [reflexivity|].
  exact (proj1 (bytes_result_has_no_shape doubles.registry (Some ["plain"])
                  (Buffer.as_array_like [x00; x01])
                  (ArraySpec.mk [2] np.int8 np.C) [] _)
               [x00; x01] eq_refl).
Defined.

(** The strided window and its contiguous copy are stored alike. *)
Lemma stored_bytes_ignore_layout_witness :
  np.equiv doubles.window22 (np.copy_A doubles.window22)
  /\ np.strides doubles.window22 <> np.strides (np.copy_A doubles.window22)
  /\ pipeline_encode doubles.registry doubles.array_of_bytes
       (Some ["reversal"]) (Some "pack")
       doubles.window22 doubles.spec_window22 []
     = pipeline_encode doubles.registry doubles.array_of_bytes
         (Some ["reversal"]) (Some "pack")
         (np.copy_A doubles.window22) doubles.spec_window22 [].
Proof.
  assert (He : np.equiv doubles.window22 (np.copy_A doubles.window22))
    by (repeat split).
  split; [exact He|]. split; [discriminate|].
  exact (proj2 (stored_bytes_ignore_layout doubles.registry
                  doubles.array_of_bytes (Some ["reversal"]) (Some "pack")
                  doubles.window22
                  (np.copy_A doubles.window22) doubles.spec_window22 []
                  He)).
Defined.

(** Six stored bytes decoded column-major are Fortran contiguous and not
    C contiguous. *)
Lemma decoded_layout_follows_order_witness :
  pipeline_decode doubles.registry (Some []) None
    (Some [x00; x01; x02; x03; x04; x05])
    (ArraySpec.mk [2; 3] np.int8 np.F) []
  = (Ok (Some (np.fresh np.int8 [2; 3] np.F
                 [x00; x01; x02; x03; x04; x05])), [])
  /\ np.f_contiguous (np.fresh np.int8 [2; 3] np.F
                        [x00; x01; x02; x03; x04; x05]) = true
  /\ np.c_contiguous (np.fresh np.int8 [2; 3] np.F
                        [x00; x01; x02; x03; x04; x05]) = false.
Proof.
  split; [reflexivity|]. split; [|reflexivity].
  exact (decoded_layout_follows_order doubles.registry
           [x00; x01; x02; x03; x04; x05]
           (ArraySpec.mk [2; 3] np.int8 np.F) _ [] eq_refl).
Defined.
